(** * uirapuruDSP: the FITS inventory, grouping, chunking and loading module

    A shallow embedding of [src/uirapurudsp/uirapurudsp.py].

    Modelling conventions.
    - A pandas [DataFrame] is its ordered list of rows.  The row index is the
      [RangeIndex] 0, 1, ... that [read_fits] installs with
      [reset_index(drop=True)]: a label is a position.
    - Python floats ([Size], [DELTA], [MINFREQ], [MAXFREQ], the chunk
      threshold) are exact rationals [Q]; the rounding of binary floating
      point is not represented.
    - [DATE_START] is a [datetime64[ns]]: an integer count of nanoseconds.
    - A Python exception is a value of [exn]; a call that can raise returns
      [result]. *)

From Stdlib Require Import ZArith QArith Qabs Lqa Lia.
From stdpp Require Import base list strings sorting.

Local Open Scope Z_scope.

(** ** Data model *)

(** One row of the inventory built by [read_fits] (columns [File], [Size],
    [NAXIS2], [MINFREQ], [MAXFREQ], [NAXIS1], [DELTA], [DATE_START]). *)
Record FileRecord := mkFileRecord {
  File : string;
  Size : Q;
  NAXIS2 : Z;
  MINFREQ : Q;
  MAXFREQ : Q;
  NAXIS1 : Z;
  DELTA : Q;
  DATE_START : Z
}.

(** The inventory table.  The column [Grupo] does not exist in what
    [read_fits] returns; [read_obs] creates it.  When present it has one
    cell per row, [None] standing for NaN. *)
Record DataFrame := mkDataFrame {
  rows : list FileRecord;
  Grupo : option (list (option Z))
}.

Inductive exn :=
  | AttributeError
  | IndexError
  | KeyError
  | TypeError
  | UnboundLocalError
  | ValueError
  | OSError.

Inductive result (A : Type) :=
  | Ok (a : A)
  | Raise (e : exn).
Arguments Ok {A} a.
Arguments Raise {A} e.

#[global] Instance result_ret : MRet result := fun A a => Ok a.

#[global] Instance result_bind : MBind result := fun A B k r =>
  match r with
  | Ok a => k a
  | Raise e => Raise e
  end.

(** A loop whose body can raise: the first exception ends it. *)
Fixpoint foldlM {S A} (body : S -> A -> result S) (st : S) (l : list A) : result S :=
  match l with
  | [] => Ok st
  | x :: l' =>
      match body st x with
      | Ok st' => foldlM body st' l'
      | Raise e => Raise e
      end
  end.

(** [x < y] on floats, as a boolean. *)
Definition Qltb (x y : Q) : bool := negb (Qle_bool y x).

(** ** [chunk_files] *)

Module Chunker.

(** The three local variables of the loop in [chunk_files]. *)
Record state := mkState {
  chunks : list (list string);
  file_chunk : list string;
  size : Q
}.

Definition init : state := mkState [] [] 0%Q.

(** One iteration of [for idx in idxs], on the row labelled [idx]. *)
Definition step (threshold : Q) (st : state) (row : FileRecord) : state :=
  if Qltb (size st) threshold then
    mkState (chunks st) (file_chunk st ++ [File row]) (size st + Size row)%Q
  else
    mkState (chunks st ++ [file_chunk st]) [] 0%Q.

Definition loop (threshold : Q) (obs : list FileRecord) : state :=
  foldl (step threshold) init obs.

End Chunker.

(** [chunk_files(obs, threshold)].  Only the columns [File] and [Size] of
    [obs] are read; the caller passes the threshold, 200 by default. *)
Definition chunk_files (obs : DataFrame) (threshold : Q) : list (list string) :=
  Chunker.chunks (Chunker.loop threshold (rows obs)).

(** A table without the [Grupo] column. *)
Definition frame (rs : list FileRecord) : DataFrame := mkDataFrame rs None.

(** A row of which only the path and the size matter. *)
Definition sized (f : string) (mb : Q) : FileRecord :=
  mkFileRecord f mb 0 0%Q 0%Q 0 0%Q 0.

(** ** Numeric helpers *)

(** Round to the nearest integer, ties to the even one ([numpy.rint],
    [Timedelta.round]). *)
Definition round_half_even (q : Q) : Z :=
  let n := Qnum q in
  let d := Z.pos (Qden q) in
  let f := n / d in
  match (2 * (n mod d)) ?= d with
  | Lt => f
  | Gt => f + 1
  | Eq => if Z.even f then f else f + 1
  end.

(** [DataFrame.round({"Size": 2})]. *)
Definition round2 (q : Q) : Q := round_half_even (q * 100) # 100.

(** [Timedelta.total_seconds()] of a difference of two timestamps. *)
Definition total_seconds (ns : Z) : Q := ns # 1000000000.

(** [pd.Timedelta(val, unit="s")]: a whole number of nanoseconds. *)
Definition Timedelta_s (val : Q) : Z := round_half_even (val * 1000000000).

(** [Timedelta.round("s")], still counted in nanoseconds. *)
Definition Timedelta_round_s (ns : Z) : Z :=
  round_half_even (ns # 1000000000) * 1000000000.

Definition Qsum (l : list Q) : Q := foldr Qplus 0%Q l.

(** ** pandas helpers *)

(** A [Series]: values with their row labels. *)
Abbreviation Series A := (list (nat * A)).

(** [groupby(...)] with the default [sort=True]: the groups come in
    ascending key order, the members of a group in table order. *)
Fixpoint group_insert {K A} (cmp : K -> K -> comparison) (k : K) (a : A)
    (gs : list (K * list A)) : list (K * list A) :=
  match gs with
  | [] => [(k, [a])]
  | (k', g) :: gs' =>
      match cmp k k' with
      | Lt => (k, [a]) :: gs
      | Eq => (k', g ++ [a]) :: gs'
      | Gt => (k', g) :: group_insert cmp k a gs'
      end
  end.

Definition groupby {K A} (cmp : K -> K -> comparison) (l : list (K * A))
    : list (K * list A) :=
  foldl (fun gs ka => group_insert cmp ka.1 ka.2 gs) [] l.

(** [Series.diff()]: NaT at the first position. *)
Fixpoint diff_from (prev : Z) (s : Series Z) : Series (option Z) :=
  match s with
  | [] => []
  | (i, x) :: s' => (i, Some (x - prev)) :: diff_from x s'
  end.

Definition diff (s : Series Z) : Series (option Z) :=
  match s with
  | [] => []
  | (i, x) :: s' => (i, None) :: diff_from x s'
  end.

(** [Series.shift()]: NaN at the first position, the last value lost. *)
Fixpoint shift_from {A} (prev : option A) (s : Series A) : Series (option A) :=
  match s with
  | [] => []
  | (i, x) :: s' => (i, prev) :: shift_from (Some x) s'
  end.

Definition shift {A} (s : Series A) : Series (option A) := shift_from None s.

(** [a != b] where [b] may be NaN: NaN differs from everything. *)
Definition ne_nan (a : Z) (b : option Z) : bool :=
  match b with
  | Some b => negb (a =? b)
  | None => true
  end.

(** [Series.cumsum()] of booleans. *)
Fixpoint cumsum_from (acc : Z) (s : list bool) : list Z :=
  match s with
  | [] => []
  | b :: s' =>
      let acc' := acc + (if b then 1 else 0) in
      acc' :: cumsum_from acc' s'
  end.

Definition cumsum (s : list bool) : list Z := cumsum_from 0 s.

(** ** [read_obs] *)

(** A row of the summary table [df_sum] that [read_obs] returns.  [DELTA]
    is a [Timedelta], in nanoseconds. *)
Module Summary.
Record row := mkRow {
  Grupo : Z;
  DATE_START : Z;
  DELTA : Z;
  Size : Q;
  MINFREQ : Q;
  MAXFREQ : Q;
  NAXIS1 : Z
}.
End Summary.

Module Grouper.

Definition index {A} (s : Series A) : list nat := s.*1.

(** The key of [df.groupby(["MINFREQ", "MAXFREQ", "NAXIS1"])]. *)
Definition bucket : Type := Q * Q * Z.

Definition bucket_of (r : FileRecord) : bucket := (MINFREQ r, MAXFREQ r, NAXIS1 r).

Definition bucket_cmp (a b : bucket) : comparison :=
  match (a.1.1 ?= b.1.1)%Q with
  | Eq =>
      match (a.1.2 ?= b.1.2)%Q with
      | Eq => a.2 ?= b.2
      | c => c
      end
  | c => c
  end.

(** The rows of the table with their labels, bucket by bucket. *)
Definition buckets (df : DataFrame) : list (bucket * Series FileRecord) :=
  groupby bucket_cmp ((fun ir => (bucket_of ir.2, ir)) <$> imap pair (rows df)).

(** The lambda given to [apply]; [val] is one bucket, with the columns
    [DELTA] (position 0) and [DATE_START] (position 1).  The two operands
    of the subtraction carry the same labels, so aligning them pairs them
    position by position. *)
Definition contiguous (val : Series FileRecord) : Series bool :=
  let date_start := (fun ir : nat * FileRecord => (ir.1, DATE_START ir.2)) <$> val in
  let seconds :=
    drop 1 ((fun id : nat * option Z => (id.1, total_seconds <$> id.2))
            <$> diff date_start) in
  let delta := drop 1 ((fun ir : nat * FileRecord => (ir.1, DELTA ir.2)) <$> val) in
  zip_with
    (fun (s : nat * option Q) (d : nat * Q) =>
       (s.1, match s.2 with
             | Some t => Qltb (Qabs (t - d.2)) 300%Q
             | None => false
             end))
    seconds delta.

(** How [apply] assembles the per-bucket results: when every bucket
    returned the same index the results become the rows of a DataFrame
    whose columns are that index; otherwise they are concatenated into one
    Series under a MultiIndex. *)
Definition all_indexes_same (vs : list (Series bool)) : bool :=
  match vs with
  | [] => true
  | v :: vs' => forallb (fun w => bool_decide (index w = index v)) vs'
  end.

(** [dfg.sum()] on the DataFrame: one count of [True] per column. *)
Definition column_sums (vs : list (Series bool)) : Series Z :=
  match vs with
  | [] => []
  | v :: _ =>
      imap
        (fun j ib =>
           (ib.1,
            foldr Z.add 0
              ((fun w : Series bool =>
                  match w !! j with
                  | Some (_, true) => 1
                  | _ => 0
                  end) <$> vs)))
        v
  end.

(** [groups = series.groupby((series != series.shift()).cumsum())]: the
    maximal runs of equal consecutive values. *)
Definition runs (series : Series Z) : list (Series Z) :=
  let changed := zip_with ne_nan series.*2 (shift series).*2 in
  (groupby Z.compare (zip (cumsum changed) series)).*2.

Definition contiguous_ones (series : Series Z) : list (Series Z) :=
  List.filter
    (fun group : Series Z =>
       match group with
       | (_, v) :: _ => v =? 1
       | [] => false
       end)
    (runs series).

(** [df.loc[idx, "Grupo"] = v]: creates the column, all NaN, when the
    table does not have it yet. *)
Definition loc_set_Grupo (df : DataFrame) (idx : list nat) (v : Z) : DataFrame :=
  let col := default (replicate (length (rows df)) None) (Grupo df) in
  mkDataFrame (rows df) (Some (foldl (fun c i => <[i := Some v]> c) col idx)).

(** The loop [for ii, group in enumerate(contiguous_ones)]. *)
Definition assign_groups (df : DataFrame) (ones : list (Series Z)) : DataFrame :=
  foldl (fun d ig => loc_set_Grupo d (index ig.2) (Z.of_nat ig.1)) df
        (imap pair ones).

(** [df.dropna().groupby("Grupo")]: the rows whose [Grupo] is not NaN,
    keyed by it.  Without the column the lookup raises [KeyError]. *)
Definition grouped (df : DataFrame) : result (list (Z * list FileRecord)) :=
  match Grupo df with
  | None => Raise KeyError
  | Some col =>
      Ok (groupby Z.compare
            (omap (fun gr => (fun g => (g, gr.2)) <$> gr.1) (zip col (rows df))))
  end.

(** The aggregation of one group, followed by the conversions of lines
    83 to 89.  A group is never empty. *)
Definition agg (g : Z * list FileRecord) : option Summary.row :=
  match g.2 with
  | [] => None
  | first :: _ =>
      Some (Summary.mkRow
              g.1
              (DATE_START first)
              (Timedelta_round_s (Timedelta_s (Qsum (DELTA <$> g.2))))
              (round2 (Qsum (Size <$> g.2) / 1024))
              (MINFREQ first)
              (MAXFREQ first)
              (NAXIS1 first))
  end.

(** Lines 67 to 90: the summary table. *)
Definition summary (df : DataFrame) : result (list Summary.row) :=
  match grouped df with
  | Ok gs => Ok (omap agg gs)
  | Raise e => Raise e
  end.

End Grouper.

(** [read_obs(df)] for a DataFrame [df] (for any other argument the
    function first calls [read_fits()] and works on its result).  The
    table is a shared object that the function updates in place, so the
    model returns it next to the result.  Rows of the inventory hold no
    NaN, so [dropna()] only looks at [Grupo]. *)
Definition read_obs (df : DataFrame) : DataFrame * result (list Summary.row) :=
  let dfg :=
    (fun g : Grouper.bucket * Series FileRecord => Grouper.contiguous g.2)
      <$> Grouper.buckets df in
  if Grouper.all_indexes_same dfg then
    let series := Grouper.column_sums dfg in
    let df' := Grouper.assign_groups df (Grouper.contiguous_ones series) in
    (df', Grouper.summary df')
  else
    (* [dfg.sum()] is a number, which has no [groupby] *)
    (df, Raise AttributeError).

(** ** The file system and the FITS files *)

Module Fits.

(** The header of the primary HDU, [hdul[0].header]. *)
Record header := mkHeader {
  DATE_OBS : string;
  TIME_OBS : string;
  NAXIS2 : Z;
  MINFREQ : Q;
  MAXFREQ : Q;
  NAXIS1 : Z
}.

(** An opened file: the primary HDU and row 0 of the table in [hdul[1]],
    whose fields are [TIME] (field 0) and [FREQUENCY] (field 1). *)
Record hdul := mkHdul {
  hdr : header;
  data : list (list Q);
  TIME : list Q;
  FREQUENCY : list Q
}.

End Fits.

(** What the module reads from outside: the directory listing, the file
    sizes, the files, and pandas' timestamp parser. *)
Record Env := mkEnv {
  glob_fit : list string;
  st_size : string -> Z;
  fits_open : string -> result Fits.hdul;
  to_datetime : string -> result Z
}.

(** ** [read_fits] *)

Module Inventory.

(** The comparison of [sort_values(["MINFREQ", "NAXIS1", "DATE_START"])]. *)
Definition key_cmp (a b : FileRecord) : comparison :=
  match (MINFREQ a ?= MINFREQ b)%Q with
  | Eq =>
      match NAXIS1 a ?= NAXIS1 b with
      | Eq => DATE_START a ?= DATE_START b
      | c => c
      end
  | c => c
  end.

Definition key_le (a b : FileRecord) : Prop := key_cmp a b <> Gt.

#[global] Instance key_le_dec a b : Decision (key_le a b).
Proof.
  unfold key_le. destruct (key_cmp a b); [left | left | right]; congruence.
Defined.

(** The body of the loop over the files: one row of [headers]. *)
Definition scan (env : Env) (file : string) : result (string * Q * Fits.header * Q) :=
  hdul ← fits_open env file;
  let size := (inject_Z (st_size env file) / (1024 * 1024))%Q in
  match last (Fits.TIME hdul) with
  | Some delta => Ok (file, size, Fits.hdr hdul, delta)
  | None => Raise IndexError
  end.

(** Lines 31 to 41 for one row: the start timestamp and the units. *)
Definition typed (env : Env) (raw : string * Q * Fits.header * Q) : result FileRecord :=
  let '(file, size, h, delta) := raw in
  start ← to_datetime env (Fits.DATE_OBS h +:+ "T" +:+ Fits.TIME_OBS h);
  Ok (mkFileRecord file size (Fits.NAXIS2 h)
        (Fits.MINFREQ h / 1000000)%Q (Fits.MAXFREQ h / 1000000)%Q
        (Fits.NAXIS1 h) delta start).

End Inventory.

(** [read_fits()].  With no file in the directory the loop body never
    runs and [cols] is unbound at line 31. *)
Definition read_fits (env : Env) : result DataFrame :=
  headers ← mapM (Inventory.scan env) (glob_fit env);
  match headers with
  | [] => Raise UnboundLocalError
  | _ =>
      df ← mapM (Inventory.typed env) headers;
      Ok (frame (merge_sort Inventory.key_le df))
  end.

(** [select_obs(group)].  The table that [read_obs] has updated is read
    back: the rows whose [Grupo] is [group] are returned.  When [group] is
    None the number is typed in by the user, so it is an argument here. *)
Definition select_obs (env : Env) (group : Z) : result DataFrame :=
  df ← read_fits env;
  match read_obs df with
  | (_, Raise e) => Raise e
  | (df', Ok _) =>
      match Grupo df' with
      | None => Raise AttributeError
      | Some col =>
          let selected :=
            List.filter (fun gr : option Z * FileRecord => bool_decide (gr.1 = Some group))
                        (zip col (rows df')) in
          Ok (mkDataFrame selected.*2 (Some selected.*1))
      end
  end.

(** ** [load_fits] *)

Module Loader.

(** An element of the list [chunks]: a chunk, or the integer that line
    124 stores there. *)
Inductive item :=
  | Chunk (files : list string)
  | Int (n : Z).

(** The array being assembled, once a chunk has been processed. *)
Record arrays := mkArrays {
  dda : list (list Q);
  time_index : list Z
}.

(** The local variables of the loops of lines 125 to 146; [arr] and
    [freqs] are unbound until first assigned. *)
Record state := mkState {
  data : list (list (list Q));
  timestamps : list (list Z);
  arr : option arrays;
  freqs : option (list Q)
}.

Definition init : state := mkState [] [] None None.

(** A bound of a slice, as Python normalises it. *)
Definition slice_bound (len i : Z) : Z :=
  if i <? 0 then Z.max 0 (i + len) else Z.min i len.

(** [l[start:stop]]. *)
Definition slice {A} (l : list A) (start stop : Z) : list A :=
  let len := Z.of_nat (length l) in
  let a := slice_bound len start in
  let b := slice_bound len stop in
  take (Z.to_nat (b - a)) (drop (Z.to_nat a) l).

(** Lines 123 and 124. *)
Definition clamp (chunks : list item) (chunks_idx : Z * Z) : result (list item) :=
  if Z.of_nat (length chunks) <? chunks_idx.2 then
    if bool_decide (1 < length chunks)%nat then
      Ok (<[1%nat := Int (Z.of_nat (length chunks))]> chunks)
    else Raise IndexError
  else Ok chunks.

(** The body of [for file in chunk]. *)
Definition read_file (env : Env) (st : state) (file : string) : result state :=
  hdul ← fits_open env file;
  start ← to_datetime env
            (Fits.DATE_OBS (Fits.hdr hdul) +:+ "T" +:+ Fits.TIME_OBS (Fits.hdr hdul));
  let time_vector := (fun t => start + Timedelta_s t) <$> Fits.TIME hdul in
  Ok (mkState (data st ++ [Fits.data hdul]) (timestamps st ++ [time_vector])
        (arr st) (Some (Fits.FREQUENCY hdul))).

(** [da.concatenate] along the first axis: at least one array, and all
    rows of the same width. *)
Definition uniform (rows : list (list Q)) : bool :=
  match rows with
  | [] => true
  | r :: rs => forallb (fun r' => bool_decide (length r' = length r)) rs
  end.

Definition concatenate (arrays : list (list (list Q))) : result (list (list Q)) :=
  match arrays with
  | [] => Raise ValueError
  | _ => if uniform (concat arrays) then Ok (concat arrays) else Raise ValueError
  end.

(** The body of [for chunk in chunks[...]]. *)
Definition read_chunk (env : Env) (st : state) (chunk : item) : result state :=
  match chunk with
  | Int _ => Raise TypeError
  | Chunk files =>
      st' ← foldlM (read_file env) st files;
      d ← concatenate (data st');
      Ok (mkState (data st') (timestamps st')
            (Some (mkArrays d (concat (timestamps st')))) (freqs st'))
  end.

End Loader.

(** The result of [load_fits]: the [xr.DataArray] with its coordinates. *)
Record DataArray := mkDataArray {
  values : list (list Q);
  Time : list Z;
  Freq : list Q
}.

(** [load_fits(obs, chunks_idx, threshold)]; [None] is the default
    [chunks_idx], replaced by [[0, 10]]. *)
Definition load_fits (env : Env) (obs : DataFrame) (chunks_idx : option (Z * Z))
    (threshold : Q) : result DataArray :=
  let chunks_idx := default (0, 10) chunks_idx in
  let chunks := Loader.Chunk <$> chunk_files obs threshold in
  chunks ← Loader.clamp chunks chunks_idx;
  st ← foldlM (Loader.read_chunk env) Loader.init
         (Loader.slice chunks chunks_idx.1 chunks_idx.2);
  match Loader.arr st, Loader.freqs st with
  | Some a, Some f =>
      if bool_decide (length (Loader.dda a) = length (Loader.time_index a)
                      /\ Forall (fun row => length row = length f) (Loader.dda a))
      then Ok (mkDataArray (Loader.dda a) (Loader.time_index a) f)
      else Raise ValueError
  | _, _ => Raise UnboundLocalError
  end.

(** ** Vocabulary of the statements *)

(** The running chunks that the threshold check of line 109 closed during
    the walk over [obs], in the order of the walk: row [k] closes the chunk
    accumulated over the [k] rows before it when their running size is not
    below the threshold. *)
Definition closed_by_check (threshold : Q) (obs : list FileRecord)
    : list (list string) :=
  omap
    (fun k =>
       let st := Chunker.loop threshold (take k obs) in
       if Qltb (Chunker.size st) threshold then None
       else Some (Chunker.file_chunk st))
    (seq 0 (length obs)).

(** How often the path [f] occurs in a list of paths. *)
Definition occurrences (f : string) (l : list string) : nat :=
  length (filter (f =.) l).

(** A chunk of rows whose cumulative size, its last file left out, is
    below the threshold. *)
Definition within (threshold : Q) (seg : list FileRecord) : Prop :=
  exists pre final,
    seg = pre ++ [final] /\
    (Qsum (Size <$> seg) - Size final < threshold)%Q.


(** The cell of the column [Grupo] at the row labelled [i]; NaN when the
    table has no such column or no such row. *)
Definition Grupo_at (df : DataFrame) (i : nat) : option Z :=
  match Grupo df with
  | Some col => default None (col !! i)
  | None => None
  end.

(** Ascending lexicographic order on (MINFREQ, NAXIS1, DATE_START). *)
Definition lex_le (a b : FileRecord) : Prop :=
  (MINFREQ a < MINFREQ b)%Q \/
  ((MINFREQ a == MINFREQ b)%Q /\
   (NAXIS1 a < NAXIS1 b \/
    (NAXIS1 a = NAXIS1 b /\ DATE_START a <= DATE_START b))).

(** Two records of one bucket of the grouper. *)
Definition same_bucket (a b : FileRecord) : Prop :=
  (MINFREQ a == MINFREQ b)%Q /\ (MAXFREQ a == MAXFREQ b)%Q /\ NAXIS1 a = NAXIS1 b.


(** A file that [read_fits] can turn into a row: it opens, its time axis
    is not empty and its date and time parse. *)
Definition scannable (env : Env) (file : string) : Prop :=
  exists hdul start,
    fits_open env file = Ok hdul /\
    Fits.TIME hdul <> [] /\
    to_datetime env
      (Fits.DATE_OBS (Fits.hdr hdul) +:+ "T" +:+ Fits.TIME_OBS (Fits.hdr hdul))
    = Ok start.

(** Two consecutive entries of a series numbered by run: the number does
    not decrease, and it stays the same only if the value does. *)
Definition run_step (a b : Z * (nat * Z)) : Prop :=
  a.1 <= b.1 /\ (b.1 = a.1 -> b.2.2 = a.2.2).

(** ** Sample data *)

(** Five files of one observation, sizes in MiB. *)
Definition obs_sample : DataFrame :=
  frame [sized "f1" 100; sized "f2" 100; sized "f3" 50; sized "f4" 200;
         sized "f5" 1].

(** Six files that [chunk_files] cuts, with threshold 200, into the three
    chunks [f1], [f3] and [f5]. *)
Definition obs_three_chunks : DataFrame :=
  frame [sized "f1" 200; sized "f2" 1; sized "f3" 200; sized "f4" 1;
         sized "f5" 200; sized "f6" 1].

(** A bucket of two records: the second starts 900 s after the first,
    which lasts 900 s; the second lasts 300 s. *)
Definition record_a : FileRecord :=
  mkFileRecord "a.fit" 100 3600 45 870 200 900 0.

Definition record_b : FileRecord :=
  mkFileRecord "b.fit" 110 1200 45 870 200 300 900000000000.


(** An inventory of three files of 900 s each, recorded back to back in
    one bucket. *)
Definition inventory_sample : DataFrame :=
  frame [mkFileRecord "a.fit" 100 3600 45 870 200 900 0;
         mkFileRecord "b.fit" 110 3600 45 870 200 900 900000000000;
         mkFileRecord "c.fit" 120 3600 45 870 200 900 1800000000000].

(** A directory of two readable files with two samples of three
    channels each; every timestamp parses to the epoch. *)
Definition hdul_sample : Fits.hdul :=
  Fits.mkHdul
    (Fits.mkHeader "20200101" "000000.000" 2 45000000 870000000 3)
    [[1; 2; 3]; [4; 5; 6]]%Q [0; 0.25]%Q [45; 46; 47]%Q.

Definition env_sample : Env :=
  mkEnv ["b.fit"; "a.fit"] (fun _ => 2097152) (fun _ => Ok hdul_sample)
        (fun _ => Ok 0).

(** ** Vocabulary of the further properties *)

(** What [load_fits] takes from one file (lines 129 to 142): the data
    array, the absolute time of every sample and the frequency axis. *)
Definition file_content (env : Env) (file : string)
    : result (list (list Q) * list Z * list Q) :=
  hdul ← fits_open env file;
  start ← to_datetime env
            (Fits.DATE_OBS (Fits.hdr hdul) +:+ "T" +:+ Fits.TIME_OBS (Fits.hdr hdul));
  Ok (Fits.data hdul, (fun t => start + Timedelta_s t) <$> Fits.TIME hdul,
      Fits.FREQUENCY hdul).

(** The row that [read_fits] builds from one file: the path, the size in
    MiB, the header fields with the frequencies in MHz, the last time
    offset of the file and the parsed start. *)
Definition row_of (env : Env) (file : string) (r : FileRecord) : Prop :=
  exists hdul delta start,
    fits_open env file = Ok hdul /\
    last (Fits.TIME hdul) = Some delta /\
    to_datetime env
      (Fits.DATE_OBS (Fits.hdr hdul) +:+ "T" +:+ Fits.TIME_OBS (Fits.hdr hdul))
    = Ok start /\
    r = mkFileRecord file
          (inject_Z (st_size env file) / (1024 * 1024))%Q
          (Fits.NAXIS2 (Fits.hdr hdul))
          (Fits.MINFREQ (Fits.hdr hdul) / 1000000)%Q
          (Fits.MAXFREQ (Fits.hdr hdul) / 1000000)%Q
          (Fits.NAXIS1 (Fits.hdr hdul)) delta start.

(** A comparison function that orders its keys totally, up to the keys
    it declares equal. *)
Record cmp_order {K} (cmp : K -> K -> comparison) : Prop := mk_cmp_order {
  cmp_refl : forall a, cmp a a = Eq;
  cmp_sym : forall a b, cmp a b = Eq -> cmp b a = Eq;
  cmp_gt_lt : forall a b, cmp a b = Gt -> cmp b a = Lt;
  cmp_lt_trans : forall a b c, cmp a b = Lt -> cmp b c = Lt -> cmp a c = Lt;
  cmp_eq_l : forall a b c, cmp a b = Eq -> cmp a c = cmp b c;
  cmp_eq_r : forall a b c, cmp a b = Eq -> cmp c a = cmp c b
}.

(** The cells of [Grupo] after the writes [df.loc[idx, "Grupo"] = ii] of a
    list of numbered index sets, from the cells before them. *)
Definition written (W : list (nat * Series Z)) (col : list (option Z))
    : list (option Z) :=
  foldl (fun c (ig : nat * Series Z) =>
           foldl (fun c' i => <[i := Some (Z.of_nat ig.1)]> c') c (Grouper.index ig.2))
        col W.

(** The rows of the table that carry the group number [g], in table
    order: the selection that [select_obs] makes at line 99. *)
Definition members (df : DataFrame) (g : Z) : list FileRecord :=
  match Grupo df with
  | Some col =>
      (List.filter (fun gr : option Z * FileRecord => bool_decide (gr.1 = Some g))
                   (zip col (rows df))).*2
  | None => []
  end.

(** Whether a key falls in the group of key [k]. *)
Definition in_group {K} (cmp : K -> K -> comparison) (k k' : K) : bool :=
  match cmp k' k with
  | Eq => true
  | _ => false
  end.

(** * Proofs *)

Lemma Qltb_lt x y : Qltb x y = true <-> (x < y)%Q.
Proof.
  unfold Qltb. rewrite negb_true_iff, <- not_true_iff_false, Qle_bool_iff.
  split; [apply Qnot_le_lt | apply Qlt_not_le].
Qed.

Lemma Qltb_ge x y : Qltb x y = false <-> (y <= x)%Q.
Proof. unfold Qltb. rewrite negb_false_iff. apply Qle_bool_iff. Qed.

(** ** The chunk planner *)

Section chunker_facts.
Variable threshold : Q.

Lemma loop_snoc rs r :
  Chunker.loop threshold (rs ++ [r])
  = Chunker.step threshold (Chunker.loop threshold rs) r.
Proof. unfold Chunker.loop. apply foldl_snoc. Qed.

Lemma chunk_files_snoc rs r g :
  chunk_files (mkDataFrame (rs ++ [r]) g) threshold
  = let st := Chunker.loop threshold rs in
    if Qltb (Chunker.size st) threshold then Chunker.chunks st
    else Chunker.chunks st ++ [Chunker.file_chunk st].
Proof.
  unfold chunk_files; simpl. rewrite loop_snoc. unfold Chunker.step.
  destruct (Qltb _ _); reflexivity.
Qed.

Lemma closed_by_check_snoc rs r :
  closed_by_check threshold (rs ++ [r])
  = closed_by_check threshold rs
    ++ (let st := Chunker.loop threshold rs in
        if Qltb (Chunker.size st) threshold then []
        else [Chunker.file_chunk st]).
Proof.
  unfold closed_by_check.
  rewrite length_app, Nat.add_1_r, seq_S, omap_app. simpl.
  rewrite take_app_length. f_equal.
  - apply list_omap_ext, Forall_Forall2_diag, Forall_forall.
    intros k Hk%elem_of_seq. rewrite take_app_le by lia. reflexivity.
  - destruct (Qltb _ _); reflexivity.
Qed.
End chunker_facts.

(** C6. The output of [chunk_files] is exactly the list of chunks that the
    threshold check closed during the walk; the chunk still in progress
    when the input ends is not among them. *)
Theorem chunk_files_only_closed (obs : DataFrame) (threshold : Q) :
  chunk_files obs threshold = closed_by_check threshold (rows obs).
Proof.
  destruct obs as [rs g]; simpl.
  induction rs as [|r rs IH] using rev_ind; [reflexivity|].
  rewrite chunk_files_snoc, closed_by_check_snoc. simpl.
  unfold chunk_files in IH; simpl in IH. rewrite <- IH.
  destruct (Qltb _ _); [by rewrite app_nil_r | reflexivity].
Qed.

(** For instance a single file below the threshold stays in the running
    chunk and the result is empty. *)
Example trailing_chunk_not_returned :
  chunk_files (frame [sized "f1" 100]) 200 = [] /\
  Chunker.file_chunk (Chunker.loop 200 [sized "f1" 100]) = ["f1"].
Proof. split; reflexivity. Qed.

Lemma Qsum_snoc l x : (Qsum (l ++ [x]) == Qsum l + x)%Q.
Proof.
  induction l as [|y l IH]; simpl; [ring|]. rewrite IH. ring.
Qed.

Lemma concat_fmap_fmap {A B} (f : A -> B) (ls : list (list A)) :
  concat (fmap (M:=list) f <$> ls) = f <$> concat ls.
Proof.
  induction ls as [|l ls IH]; [reflexivity|].
  rewrite fmap_cons. cbn [concat]. rewrite fmap_app. by f_equal.
Qed.

(** The state of the walk in terms of the rows consumed so far: the closed
    chunks and the running chunk are consecutive pieces of the input, the
    running size is the size of the running chunk, a chunk is closed only
    once its size has reached the threshold, and a chunk never grows after
    that. *)
Lemma loop_segments (threshold : Q) (rs : list FileRecord) :
  exists segs cur,
    Chunker.chunks (Chunker.loop threshold rs) = fmap (M:=list) File <$> segs /\
    Chunker.file_chunk (Chunker.loop threshold rs) = File <$> cur /\
    (Chunker.size (Chunker.loop threshold rs) == Qsum (Size <$> cur))%Q /\
    concat segs ++ cur `sublist_of` rs /\
    Forall (fun seg => (threshold <= Qsum (Size <$> seg))%Q
                       /\ (seg = [] \/ within threshold seg)) segs /\
    (cur = [] \/ within threshold cur).
Proof.
  induction rs as [|r rs IH] using rev_ind.
  - exists [], []. cbn. repeat split; auto using sublist_nil.
  - destruct IH as (segs & cur & Hc & Hf & Hs & Hsub & Hsegs & Hcur).
    rewrite loop_snoc. unfold Chunker.step.
    destruct (Qltb _ _) eqn:Hlt; simpl.
    + apply Qltb_lt in Hlt.
      exists segs, (cur ++ [r]). rewrite !fmap_app, Hf. simpl.
      repeat split; auto.
      * rewrite Qsum_snoc, Hs. reflexivity.
      * rewrite app_assoc. by apply sublist_app.
      * right. exists cur, r. split; [reflexivity|].
        rewrite fmap_app. simpl. rewrite Qsum_snoc, <- Hs. lra.
    + apply Qltb_ge in Hlt.
      exists (segs ++ [cur]), []. rewrite fmap_app, Hc, Hf. simpl.
      repeat split; auto.
      * rewrite concat_app. simpl. rewrite !app_nil_r.
        by apply sublist_inserts_r.
      * apply Forall_app. split; [assumption|].
        constructor; [|constructor]. split; [|assumption].
        rewrite <- Hs. assumption.
Qed.



Lemma sublist_occurrences (f : string) (l k : list string) :
  l `sublist_of` k -> (occurrences f l <= occurrences f k)%nat.
Proof.
  unfold occurrences. induction 1 as [|x l k _ IH|x l k _ IH]; [done| |].
  - rewrite !filter_cons. destruct (decide (f = x)); simpl; lia.
  - rewrite filter_cons. destruct (decide (f = x)); simpl; lia.
Qed.

(** C10. [chunk_files] neither duplicates nor reorders its input: the
    returned chunks, read in order, are a subsequence of the input paths;
    hence no path occurs in them more often than in the input, and when the
    input lists every path once each path occurs at most once in the
    output. *)
Theorem chunk_files_subsequence (obs : DataFrame) (threshold : Q) :
  concat (chunk_files obs threshold) `sublist_of` (File <$> rows obs) /\
  (forall f, (occurrences f (concat (chunk_files obs threshold))
              <= occurrences f (File <$> rows obs))%nat) /\
  (NoDup (File <$> rows obs) -> NoDup (concat (chunk_files obs threshold))).
Proof.
  assert (Hsub : concat (chunk_files obs threshold) `sublist_of` (File <$> rows obs)).
  { unfold chunk_files.
    destruct (loop_segments threshold (rows obs))
      as (segs & cur & Hc & _ & _ & Hsub & _).
    rewrite Hc, concat_fmap_fmap. apply fmap_sublist.
    etransitivity; [|exact Hsub]. apply sublist_inserts_r. reflexivity. }
  repeat split.
  - exact Hsub.
  - intros f. by apply sublist_occurrences.
  - intros Hnd. by eapply sublist_NoDup.
Qed.

Lemma chunk_files_subsequence_witness :
  NoDup (concat (chunk_files obs_sample 200)).
Proof.
  apply (chunk_files_subsequence obs_sample 200).
  apply (bool_decide_unpack _). vm_compute. exact I.
Defined.

(** A row met when the running size has reached the threshold leaves no
    trace: the walk ends in the same state whatever that row is. *)
Lemma loop_ignores_boundary_row (threshold : Q) (rs rest : list FileRecord)
    (r r' : FileRecord) :
  (threshold <= Chunker.size (Chunker.loop threshold rs))%Q ->
  Chunker.loop threshold (rs ++ r :: rest)
  = Chunker.loop threshold (rs ++ r' :: rest).
Proof.
  intros Hge%Qltb_ge. unfold Chunker.loop in *. rewrite !foldl_app.
  cbn [foldl].
  set (st := foldl (Chunker.step threshold) Chunker.init rs) in *.
  assert (Hstep : Chunker.step threshold st r = Chunker.step threshold st r')
    by (unfold Chunker.step; by rewrite Hge).
  by rewrite Hstep.
Qed.

(** C1. At a chunk boundary the file under the cursor is lost: on the
    input f1 (100), f2 (100), f3 (50) with threshold 200 the first chunk is
    [f1, f2], but f3 only triggers the closing and the running chunk is
    empty after it; with two more files the second chunk starts with f4,
    and f3 is in no chunk. *)
Theorem chunk_files_drops_boundary_file :
  let f1 := sized "f1" 100 in
  let f2 := sized "f2" 100 in
  let f3 := sized "f3" 50 in
  chunk_files (frame [f1; f2; f3]) 200 = [["f1"; "f2"]] /\
  Chunker.file_chunk (Chunker.loop 200 [f1; f2; f3]) = [] /\
  chunk_files (frame [f1; f2; f3; sized "f4" 200; sized "f5" 1]) 200
  = [["f1"; "f2"]; ["f4"]].
Proof. repeat split. Qed.

(** ** The grouper: marking of adjacent pairs *)

Lemma contiguous_cons (p c : nat * FileRecord) (rest : Series FileRecord) :
  Grouper.contiguous (p :: c :: rest)
  = (c.1, Qltb (Qabs (total_seconds (DATE_START c.2 - DATE_START p.2) - DELTA c.2)) 300)
    :: Grouper.contiguous (c :: rest).
Proof. destruct p, c. reflexivity. Qed.

Lemma contiguous_length (val : Series FileRecord) :
  length (Grouper.contiguous val) = pred (length val).
Proof.
  induction val as [|p [|c rest] IH]; [reflexivity | reflexivity |].
  rewrite contiguous_cons. simpl in *. by rewrite IH.
Qed.




(** ** The loader *)

Lemma slice_empty {A} (l : list A) : Loader.slice l 0 0 = [].
Proof.
  unfold Loader.slice, Loader.slice_bound. simpl.
  rewrite Z.min_l by lia. reflexivity.
Qed.

(** C5. The empty range [0, 0) is not answered with an empty result:
    whatever the files and the threshold, no chunk is visited, [dda] is
    never assigned, and line 147 raises [UnboundLocalError]. *)
Theorem load_fits_empty_range_raises (env : Env) (obs : DataFrame) (threshold : Q) :
  load_fits env obs (Some (0, 0)) threshold = Raise UnboundLocalError.
Proof.
  unfold load_fits, Loader.clamp. simpl.
  destruct (Z.ltb_spec (Z.of_nat (length (Loader.Chunk <$> chunk_files obs threshold))) 0)
    as [Hneg|_]; [exfalso; lia|].
  simpl. rewrite slice_empty. reflexivity.
Qed.

Lemma slice_all {A} (l : list A) (stop : Z) :
  Z.of_nat (length l) <= stop -> Loader.slice l 0 stop = l.
Proof.
  intros Hstop. unfold Loader.slice, Loader.slice_bound. simpl.
  destruct (Z.ltb_spec stop 0); [lia|].
  rewrite (Z.min_l 0), (Z.min_r stop), Z.sub_0_r, Nat2Z.id by lia.
  apply firstn_all.
Qed.

(** With an end index beyond the number of chunks, line 124 never leaves
    a usable chunk list behind: it raises, or it puts an integer in the
    place of the second chunk. *)
Lemma clamp_beyond (cs : list (list string)) (chunks_idx : Z * Z) :
  Z.of_nat (length cs) < chunks_idx.2 ->
  Loader.clamp (Loader.Chunk <$> cs) chunks_idx = Raise IndexError \/
  exists c0 c1 rest,
    cs = c0 :: c1 :: rest /\
    Loader.clamp (Loader.Chunk <$> cs) chunks_idx
    = Ok (Loader.Chunk c0 :: Loader.Int (Z.of_nat (length cs))
          :: (Loader.Chunk <$> rest)).
Proof.
  intros Hlt. unfold Loader.clamp. rewrite length_fmap.
  destruct (Z.ltb_spec (Z.of_nat (length cs)) chunks_idx.2); [|lia].
  destruct cs as [|c0 [|c1 rest]]; [by left | by left | right].
  exists c0, c1, rest. split; reflexivity.
Qed.

(** Hence a call that starts at chunk 0 with an end index beyond the
    number of chunks never returns an array. *)
Lemma load_fits_beyond_raises env obs stop threshold :
  Z.of_nat (length (chunk_files obs threshold)) < stop ->
  exists e, load_fits env obs (Some (0, stop)) threshold = Raise e.
Proof.
  intros Hlt. unfold load_fits. cbv zeta.
  change (default (0, 10) (Some (0, stop))) with (0, stop).
  destruct (clamp_beyond (chunk_files obs threshold) (0, stop) Hlt)
    as [->|(c0 & c1 & rest & Hcs & ->)]; [by eexists|].
  cbn [mbind result_bind].
  rewrite slice_all by (simpl; rewrite length_fmap, Hcs in *; simpl in *; lia).
  cbn [foldlM]. destruct (Loader.read_chunk env Loader.init (Loader.Chunk c0));
    by eexists.
Qed.

(** C4. An end index beyond the number of chunks is not clamped.  The
    sample observation has three chunks; with the range [0, 1000) line
    124 overwrites the second chunk with the number 3 and the loop raises
    [TypeError] on it, while the range [0, 3) loads the three chunks.
    With fewer than two chunks the assignment itself raises
    [IndexError]. *)
Theorem load_fits_end_not_clamped :
  chunk_files obs_three_chunks 200 = [["f1"]; ["f3"]; ["f5"]] /\
  Loader.clamp (Loader.Chunk <$> chunk_files obs_three_chunks 200) (0, 1000)
  = Ok [Loader.Chunk ["f1"]; Loader.Int 3; Loader.Chunk ["f5"]] /\
  load_fits env_sample obs_three_chunks (Some (0, 1000)) 200 = Raise TypeError /\
  (exists Xda, load_fits env_sample obs_three_chunks (Some (0, 3)) 200 = Ok Xda) /\
  load_fits env_sample (frame [sized "f1" 200; sized "f2" 1]) (Some (0, 1000)) 200
  = Raise IndexError.
Proof.
  split; [reflexivity|]. split; [reflexivity|]. split; [reflexivity|].
  split; [|reflexivity]. eexists. vm_compute. reflexivity.
Qed.

(** ** The inventory *)

Lemma key_le_lex (a b : FileRecord) : Inventory.key_le a b <-> lex_le a b.
Proof.
  unfold Inventory.key_le, Inventory.key_cmp, lex_le.
  destruct (Qcompare_spec (MINFREQ a) (MINFREQ b)) as [He|Hl|Hg].
  - destruct (Z.compare_spec (NAXIS1 a) (NAXIS1 b)) as [Hn|Hn|Hn].
    + rewrite Z.compare_le_iff. split; [intros; right; auto|].
      intros [?|(_ & [?|[_ ?]])]; [lra | lia | assumption].
    + split; [intros _; right; auto | congruence].
    + split; [congruence|]. intros [?|(_ & [?|[? _]])]; [lra | lia | lia].
  - split; [auto | congruence].
  - split; [congruence|]. intros [?|[? _]]; lra.
Qed.

#[local] Instance lex_le_trans : Transitive lex_le.
Proof.
  intros a b c Hab Hbc. unfold lex_le in *.
  destruct Hab as [?|(? & Hab)], Hbc as [?|(? & Hbc)];
    [left; lra | left; lra | left; lra | right].
  split; [lra|]. lia.
Qed.

#[local] Instance lex_le_total : Total lex_le.
Proof.
  intros a b. unfold lex_le.
  destruct (Qcompare_spec (MINFREQ a) (MINFREQ b)) as [He|Hl|Hg];
    [|by left; left|by right; left].
  destruct (Z.compare_spec (NAXIS1 a) (NAXIS1 b)) as [Hn|Hn|Hn].
  - destruct (Z.le_ge_cases (DATE_START a) (DATE_START b)).
    + left. right. auto.
    + right. right. split; [lra|]. right. split; [lia | assumption].
  - left. right. auto.
  - right. right. split; [lra|]. auto.
Qed.

#[local] Instance key_le_trans : Transitive Inventory.key_le.
Proof. intros a b c. rewrite !key_le_lex. apply lex_le_trans. Qed.

#[local] Instance key_le_total : Total Inventory.key_le.
Proof. intros a b. rewrite !key_le_lex. apply lex_le_total. Qed.







(** ** The grouper: what [read_obs] writes *)

Section groupby_facts.
Context {K A : Type} (cmp : K -> K -> comparison).

Lemma group_insert_elem k a (gs : list (K * list A)) k' g' :
  (k', g') ∈ group_insert cmp k a gs ->
  (k', g') ∈ gs \/ (k' = k /\ g' = [a]) \/
  (exists g, (k', g) ∈ gs /\ g' = g ++ [a] /\ cmp k k' = Eq).
Proof.
  induction gs as [|[k0 g0] gs IH]; simpl.
  - intros H%list_elem_of_singleton. injection H as -> ->. right; left; done.
  - destruct (cmp k k0) eqn:Hc; rewrite !elem_of_cons.
    + intros [H|H]; [injection H as -> ->|by left; right].
      right; right. exists g0. rewrite elem_of_cons. auto.
    + intros [H|H]; [injection H as -> ->; by right; left|by left].
    + intros [H|H]; [by left; left|].
      destruct (IH H) as [?|[?|(g & ? & ? & ?)]]; [by left; right|by right; left|].
      right; right. exists g. rewrite elem_of_cons. auto.
Qed.

(** A member of a group is a member of the grouped list, under a key
    that compares equal to the key of the group. *)
Lemma groupby_elem (l : list (K * A)) k g x :
  (k, g) ∈ groupby cmp l -> x ∈ g ->
  exists k0, (k0, x) ∈ l /\ (k0 = k \/ cmp k0 k = Eq).
Proof.
  unfold groupby. revert k g x.
  induction l as [|[k1 a1] l IH] using rev_ind; intros k g x.
  - simpl. intros H. by apply elem_of_nil in H.
  - rewrite foldl_snoc. simpl. intros Hin Hx.
    apply group_insert_elem in Hin as [Hin|[[-> ->]|(g0 & Hin & -> & Hc)]].
    + destruct (IH _ _ _ Hin Hx) as (k0 & ? & ?).
      exists k0. rewrite elem_of_app. auto.
    + apply list_elem_of_singleton in Hx as ->.
      exists k1. rewrite elem_of_app, list_elem_of_singleton. auto.
    + apply elem_of_app in Hx as [Hx|Hx];
        [|apply list_elem_of_singleton in Hx as ->].
      * destruct (IH _ _ _ Hin Hx) as (k0 & ? & ?).
        exists k0. rewrite elem_of_app. auto.
      * exists k1. rewrite elem_of_app, list_elem_of_singleton. auto.
Qed.
End groupby_facts.

#[local] Instance run_step_trans : Transitive run_step.
Proof.
  intros a b c [Hab Hab'] [Hbc Hbc']. split; [lia|].
  intros He. rewrite Hbc' by lia. apply Hab'. lia.
Qed.

Lemma run_ids_from_sorted (s : Series Z) (acc : Z) (i0 : nat) (v0 : Z) :
  Sorted run_step
    ((acc, (i0, v0))
     :: zip (cumsum_from acc (zip_with ne_nan s.*2 (shift_from (Some v0) s).*2)) s).
Proof.
  revert acc i0 v0. induction s as [|[i v] s IH]; intros acc i0 v0.
  - repeat constructor.
  - cbn. constructor; [apply IH|]. constructor. split; simpl.
    + destruct (v =? v0); simpl; lia.
    + destruct (Z.eqb_spec v v0); simpl; [done | lia].
Qed.

Lemma run_ids_sorted (series : Series Z) :
  Sorted run_step
    (zip (cumsum (zip_with ne_nan series.*2 (shift series).*2)) series).
Proof.
  destruct series as [|[i v] s]; [constructor|].
  cbn. apply run_ids_from_sorted.
Qed.

Lemma run_step_same_value (l : list (Z * (nat * Z))) (x y : Z * (nat * Z)) :
  StronglySorted run_step l ->
  x ∈ l -> y ∈ l -> x.1 = y.1 -> x.2.2 = y.2.2.
Proof.
  induction 1 as [|a l _ IH Hall]; intros Hx Hy Hxy.
  - by apply elem_of_nil in Hx.
  - rewrite Forall_forall in Hall.
    apply elem_of_cons in Hx as [->|Hx], Hy as [->|Hy]; [done | | | by apply IH].
    + symmetry. by apply (Hall y Hy).
    + by apply (Hall x Hx).
Qed.

(** The members of a run are entries of the series, all of one value. *)
Lemma runs_elem (series : Series Z) (g : Series Z) (x : nat * Z) :
  g ∈ Grouper.runs series -> x ∈ g ->
  x ∈ series /\ forall y, y ∈ g -> y.2 = x.2.
Proof.
  unfold Grouper.runs. intros ([k g'] & -> & Hg)%list_elem_of_fmap Hx. simpl in *.
  set (zs := zip _ series) in *.
  assert (Hkey : forall y, y ∈ g' -> (k, y) ∈ zs).
  { intros y Hy. destruct (groupby_elem _ _ _ _ _ Hg Hy) as (k0 & Hin & [->|Hc]);
      [done|]. by apply Z.compare_eq in Hc as ->. }
  split.
  - eapply elem_of_zip_r. by apply Hkey.
  - intros y Hy.
    apply (run_step_same_value zs (k, y) (k, x));
      [|by apply Hkey|by apply Hkey|done].
    apply Sorted_StronglySorted; [apply _|apply run_ids_sorted].
Qed.

(** The members of a selected run are entries of the series with value 1. *)
Lemma contiguous_ones_elem (series : Series Z) (g : Series Z) (i : nat) (v : Z) :
  g ∈ Grouper.contiguous_ones series -> (i, v) ∈ g -> (i, 1) ∈ series.
Proof.
  unfold Grouper.contiguous_ones.
  intros [Hg Hhd]%list_elem_of_In%filter_In Hi. apply list_elem_of_In in Hg.
  destruct g as [|[i1 v1] g]; [discriminate|]. apply Z.eqb_eq in Hhd as ->.
  destruct (runs_elem _ _ _ Hg Hi) as [Hin Hval].
  specialize (Hval (i1, 1)). simpl in Hval. rewrite <- Hval in Hin; [done|].
  apply elem_of_cons. by left.
Qed.

Lemma sum_nonzero {A} (G : A -> Z) (ws : list A) :
  foldr Z.add 0 (G <$> ws) <> 0 -> exists w, w ∈ ws /\ G w <> 0.
Proof.
  induction ws as [|w ws IH]; [done|]. rewrite fmap_cons. cbn [foldr]. intros Hs.
  destruct (Z.eq_dec (G w) 0) as [Hw|Hw].
  - destruct IH as (w' & ? & ?); [lia|]. exists w'. rewrite elem_of_cons. auto.
  - exists w. rewrite elem_of_cons. auto.
Qed.

(** A column of [dfg.sum()] that is not 0 has a [True] in some bucket, under
    the same label. *)
Lemma column_sums_nonzero (dfg : list (Series bool)) (i : nat) (s : Z) :
  Grouper.all_indexes_same dfg = true ->
  (i, s) ∈ Grouper.column_sums dfg -> s <> 0 ->
  exists w, w ∈ dfg /\ (i, true) ∈ w.
Proof.
  destruct dfg as [|v vs]; [intros _ H; by apply elem_of_nil in H|].
  unfold Grouper.column_sums.
  intros Hsame (j & [i' b] & Heq & Hj)%elem_of_lookup_imap Hs.
  cbn [fst] in Heq. injection Heq as -> ->. simpl in Hsame.
  apply (sum_nonzero
           (fun w : Series bool =>
              match w !! j with Some (_, true) => 1 | _ => 0 end)
           (v :: vs)) in Hs as (w & Hw & Hwj).
  exists w. split; [done|].
  destruct (w !! j) as [[i'' [|]]|] eqn:Hlk; try done.
  assert (Hidx : Grouper.index w = Grouper.index v).
  { apply elem_of_cons in Hw as [->|Hw]; [done|].
    rewrite forallb_forall in Hsame. apply list_elem_of_In, Hsame in Hw.
    by apply bool_decide_eq_true in Hw. }
  assert (i'' = i') as ->.
  { apply (f_equal (fun l => l !! j)) in Hidx. unfold Grouper.index in Hidx.
    rewrite !list_lookup_fmap, Hlk, Hj in Hidx. by injection Hidx. }
  apply list_elem_of_lookup. by exists j.
Qed.

Lemma foldl_insert_lookup {A} (idx : list nat) (col : list A) (x : A) (i : nat) :
  foldl (fun c j => <[j := x]> c) col idx !! i = col !! i \/ i ∈ idx.
Proof.
  revert col. induction idx as [|j idx IH]; intros col; simpl; [by left|].
  destruct (IH (<[j := x]> col)) as [Heq|Hin]; [|right; by apply elem_of_cons; right].
  destruct (decide (j = i)) as [->|Hne]; [right; by apply elem_of_cons; left|].
  left. by rewrite Heq, list_lookup_insert_ne.
Qed.

Lemma loc_set_Grupo_at (df : DataFrame) (idx : list nat) (v : Z) (i : nat) :
  Grupo_at (Grouper.loc_set_Grupo df idx v) i = Grupo_at df i \/ i ∈ idx.
Proof.
  unfold Grupo_at, Grouper.loc_set_Grupo. simpl.
  destruct (foldl_insert_lookup idx
              (default (replicate (length (rows df)) None) (Grupo df)) (Some v) i)
    as [->|Hin]; [left|by right].
  destruct (Grupo df) as [col|]; simpl; [done|].
  destruct (replicate _ _ !! i) eqn:Hr; [|done].
  by apply lookup_replicate in Hr as [-> _].
Qed.

Lemma assign_groups_from (l : list (nat * Series Z)) (df : DataFrame) :
  let df' :=
    foldl (fun d ig => Grouper.loc_set_Grupo d (Grouper.index ig.2) (Z.of_nat ig.1))
          df l in
  rows df' = rows df /\
  forall i, Grupo_at df' i = Grupo_at df i \/
            exists ig, ig ∈ l /\ i ∈ Grouper.index ig.2.
Proof.
  revert df. induction l as [|ig l IH]; intros df; simpl; [by auto|].
  destruct (IH (Grouper.loc_set_Grupo df (Grouper.index ig.2) (Z.of_nat ig.1)))
    as [Hrows Hcells].
  split; [by rewrite Hrows|]. intros i.
  destruct (Hcells i) as [->|(ig' & ? & ?)].
  - destruct (loc_set_Grupo_at df (Grouper.index ig.2) (Z.of_nat ig.1) i)
      as [->|Hin]; [by left|].
    right. exists ig. rewrite elem_of_cons. auto.
  - right. exists ig'. rewrite elem_of_cons. auto.
Qed.

(** [read_obs] leaves the rows alone, and a [Grupo] cell that it changes
    belongs to the later record of a pair marked contiguous. *)
Lemma read_obs_effect (df : DataFrame) :
  rows (read_obs df).1 = rows df /\
  forall i, Grupo_at (read_obs df).1 i <> Grupo_at df i ->
            exists b val, (b, val) ∈ Grouper.buckets df /\
                          (i, true) ∈ Grouper.contiguous val.
Proof.
  unfold read_obs. set (dfg := _ <$> Grouper.buckets df).
  destruct (Grouper.all_indexes_same dfg) eqn:Hsame; [|by split].
  cbn [fst]. unfold Grouper.assign_groups.
  destruct (assign_groups_from
              (imap pair (Grouper.contiguous_ones (Grouper.column_sums dfg))) df)
    as [Hrows Hcells].
  split; [exact Hrows|]. intros i Hne.
  destruct (Hcells i) as [?|([ii g] & Hin & Hi)]; [done|].
  apply elem_of_lookup_imap in Hin as (? & g' & Heq & Hg%list_elem_of_lookup_2).
  injection Heq as -> ->. simpl in Hi.
  apply list_elem_of_fmap in Hi as ([i' v] & -> & Hiv). simpl.
  apply (contiguous_ones_elem _ _ _ _ Hg) in Hiv.
  destruct (column_sums_nonzero dfg i' 1 Hsame Hiv) as (w & Hw & Hiw); [done|].
  apply list_elem_of_fmap in Hw as ([b val] & -> & Hbv).
  by exists b, val.
Qed.




(** ** The grouper on a table that is one run *)

Lemma groupby_same_key {K A} (cmp : K -> K -> comparison) (k0 : K)
    (l : list (K * A)) (g : list A) :
  Forall (fun ka => cmp ka.1 k0 = Eq) l ->
  foldl (fun gs ka => group_insert cmp ka.1 ka.2 gs) [(k0, g)] l
  = [(k0, g ++ l.*2)].
Proof.
  revert g. induction l as [|[k a] l IH]; intros g Hall; simpl.
  - by rewrite app_nil_r.
  - apply Forall_cons in Hall as [Hk Hall]. simpl in Hk. rewrite Hk.
    rewrite IH by done. by rewrite <- app_assoc.
Qed.

(** A list whose keys all compare equal to the first key is one group. *)
Lemma groupby_one_group {K A} (cmp : K -> K -> comparison) (k0 : K) (a0 : A)
    (l : list (K * A)) :
  Forall (fun ka => cmp ka.1 k0 = Eq) l ->
  groupby cmp ((k0, a0) :: l) = [(k0, a0 :: l.*2)].
Proof. intros Hall. unfold groupby. simpl. by rewrite groupby_same_key. Qed.

Lemma buckets_one_bucket (r0 : FileRecord) (rs : list FileRecord) :
  Forall (fun r => Grouper.bucket_cmp (Grouper.bucket_of r) (Grouper.bucket_of r0) = Eq) rs ->
  Grouper.buckets (frame (r0 :: rs))
  = [(Grouper.bucket_of r0, imap pair (r0 :: rs))].
Proof.
  intros Hall. unfold Grouper.buckets. simpl rows.
  rewrite imap_cons, fmap_cons. simpl.
  rewrite groupby_one_group.
  - do 3 f_equal. rewrite <- list_fmap_compose. apply list_fmap_id.
  - apply Forall_fmap, Forall_forall.
    intros [j r] (? & ? & [= -> ->] & Hr%list_elem_of_lookup_2)%elem_of_lookup_imap.
    simpl. rewrite Forall_forall in Hall. by apply Hall.
Qed.

Lemma contiguous_index (val : Series FileRecord) :
  Grouper.index (Grouper.contiguous val) = Grouper.index (tail val).
Proof.
  unfold Grouper.index.
  induction val as [|p [|c rest] IH]; [done | done |].
  rewrite contiguous_cons, fmap_cons. cbn [tail] in *. rewrite IH.
  by destruct c.
Qed.

Lemma all_true_fmap (l : Series bool) :
  Forall (fun ib => ib.2 = true) l -> l = (fun i => (i, true)) <$> l.*1.
Proof.
  induction 1 as [|[i b] l Hb _ IH]; [done|]. simpl in Hb. subst b.
  rewrite !fmap_cons. by f_equal.
Qed.

Lemma column_sums_one_bucket (idx : list nat) :
  Grouper.column_sums [(fun i => (i, true)) <$> idx] = (fun i => (i, 1)) <$> idx.
Proof.
  unfold Grouper.column_sums. apply list_eq. intros j.
  rewrite list_lookup_imap, !list_lookup_fmap.
  destruct (idx !! j) as [i|] eqn:Hj; simpl; [|done].
  by rewrite list_lookup_fmap, Hj.
Qed.

Lemma run_ids_all_ones (idx : list nat) (acc : Z) :
  cumsum_from acc
    (zip_with ne_nan ((fun i : nat => (i, 1)) <$> idx).*2
       (shift_from (Some 1) ((fun i : nat => (i, 1)) <$> idx)).*2)
  = replicate (length idx) acc.
Proof.
  induction idx as [|i idx IH]; [done|]. cbn. rewrite Z.add_0_r. f_equal. apply IH.
Qed.

Lemma zip_replicate_l {A B} (x : A) (l : list B) :
  zip (replicate (length l) x) l = pair x <$> l.
Proof. induction l as [|y l IH]; [done|]. simpl. by rewrite IH. Qed.

(** A series of ones is a single run, and that run is selected. *)
Lemma contiguous_ones_all_ones (i : nat) (idx : list nat) :
  Grouper.contiguous_ones ((fun i => (i, 1)) <$> i :: idx)
  = [(fun i => (i, 1)) <$> i :: idx].
Proof.
  unfold Grouper.contiguous_ones, Grouper.runs, cumsum, shift.
  rewrite fmap_cons. cbn [fmap list_fmap snd shift_from zip_with ne_nan cumsum_from].
  rewrite (run_ids_all_ones idx (0 + 1)).
  rewrite <- (length_fmap (fun i : nat => (i, 1)) idx) at 1.
  rewrite zip_replicate_l, groupby_one_group.
  - rewrite <- list_fmap_compose, list_fmap_id. reflexivity.
  - apply Forall_fmap, Forall_true. done.
Qed.

Lemma foldl_insert_seq {A} (x y : A) (m : nat) (pre : list A) :
  foldl (fun c j => <[j := x]> c) (pre ++ replicate m y) (seq (length pre) m)
  = pre ++ replicate m x.
Proof.
  revert pre. induction m as [|m IH]; intros pre; [done|]. simpl.
  rewrite <- (Nat.add_0_r (length pre)) at 1. rewrite insert_app_r. simpl.
  specialize (IH (pre ++ [x])). rewrite length_app, Nat.add_1_r in IH.
  rewrite <- !app_assoc in IH. exact IH.
Qed.

Lemma index_imap_pair {A} (l : list A) (start : nat) :
  (imap (fun j => pair (start + j)%nat) l).*1 = seq start (length l).
Proof.
  revert start. induction l as [|x l IH]; intros start; [done|].
  rewrite imap_cons. simpl. rewrite Nat.add_0_r. f_equal.
  rewrite <- IH. f_equal. apply imap_ext. intros j y _. simpl. f_equal. lia.
Qed.

Lemma omap_zip_replicate (l : list FileRecord) (g : Z) :
  omap (fun gr : option Z * FileRecord => (fun g' => (g', gr.2)) <$> gr.1)
       (zip (replicate (length l) (Some g)) l)
  = pair g <$> l.
Proof. induction l as [|r l IH]; [done|]. simpl. f_equal. exact IH. Qed.

Lemma grouped_after_anchor (r0 r1 : FileRecord) (rest : list FileRecord) :
  Grouper.grouped
    (mkDataFrame (r0 :: r1 :: rest)
       (Some (None :: replicate (S (length rest)) (Some 0))))
  = Ok [(0, r1 :: rest)].
Proof.
  unfold Grouper.grouped. cbn [Grupo rows]. f_equal.
  change (omap ?F (zip (None :: replicate (S (length rest)) (Some 0))
                       (r0 :: r1 :: rest)))
    with (omap F (zip (replicate (length (r1 :: rest)) (Some 0)) (r1 :: rest))).
  rewrite omap_zip_replicate, fmap_cons, groupby_one_group.
  - by rewrite <- list_fmap_compose, list_fmap_id.
  - apply Forall_fmap, Forall_true. done.
Qed.

(** On a fresh inventory that is one bucket of at least two records,
    every adjacent pair of which is marked contiguous, [read_obs] returns
    one group, numbered 0, and that group is the table without its first
    record: the first row keeps NaN in [Grupo], and the summary starts at
    the second record and adds up [DELTA] and [Size] from the second record
    on. *)
Lemma read_obs_one_run (r0 r1 : FileRecord) (rest : list FileRecord) :
  let rs := r0 :: r1 :: rest in
  Forall (fun r => Grouper.bucket_cmp (Grouper.bucket_of r) (Grouper.bucket_of r0) = Eq)
         (r1 :: rest) ->
  Forall (fun ib => ib.2 = true) (Grouper.contiguous (imap pair rs)) ->
  read_obs (frame rs)
  = (mkDataFrame rs (Some (None :: replicate (S (length rest)) (Some 0))),
     Ok [Summary.mkRow 0 (DATE_START r1)
           (Timedelta_round_s (Timedelta_s (Qsum (DELTA <$> r1 :: rest))))
           (round2 (Qsum (Size <$> r1 :: rest) / 1024))
           (MINFREQ r1) (MAXFREQ r1) (NAXIS1 r1)]).
Proof.
  intros rs Hbucket Hmarks. subst rs. unfold read_obs.
  rewrite buckets_one_bucket by done. rewrite fmap_cons, fmap_nil. cbn [snd].
  rewrite (all_true_fmap _ Hmarks).
  fold (Grouper.index (Grouper.contiguous (imap pair (r0 :: r1 :: rest)))).
  rewrite contiguous_index. unfold Grouper.index.
  rewrite imap_cons. cbn [tail].
  change (imap (pair ∘ S) (r1 :: rest))
    with (imap (fun j => pair (1 + j)%nat) (r1 :: rest)).
  rewrite (index_imap_pair (r1 :: rest) 1). cbn [length seq].
  cbn [Grouper.all_indexes_same forallb].
  rewrite column_sums_one_bucket, contiguous_ones_all_ones.
  unfold Grouper.assign_groups. cbn [imap foldl fst snd].
  unfold Grouper.loc_set_Grupo, Grouper.index.
  rewrite <- list_fmap_compose, list_fmap_id.
  assert (Hcol :
    foldl (fun (c : list (option Z)) (i : nat) => <[i := Some (Z.of_nat 0)]> c)
      (default (replicate (length (rows (frame (r0 :: r1 :: rest)))) None)
         (Grupo (frame (r0 :: r1 :: rest))))
      (1%nat :: seq 2 (length rest))
    = None :: replicate (S (length rest)) (Some 0)).
  { apply (foldl_insert_seq (Some 0) None (S (length rest)) [None]). }
  rewrite Hcol. cbn [frame rows]. f_equal.
  unfold Grouper.summary. by rewrite grouped_after_anchor.
Qed.

(** Downstream, [select_obs] hands over the group without its first
    file: of the two files of the sample directory, recorded back to back,
    only the second is selected. *)
Example select_obs_without_anchor :
  exists df, select_obs env_sample 0 = Ok df /\ File <$> rows df = ["a.fit"].
Proof. eexists. split; [vm_compute; reflexivity | reflexivity]. Qed.

(** C3. The anchor of a run is left out of its group.  The sample
    inventory is one bucket of three records recorded back to back; the
    only group holds the second and third record: row 0 keeps NaN in
    [Grupo], the summary starts at the second record (900 s), lasts
    1800 s instead of 2700 s and weighs 0.22 GiB instead of the 0.32 GiB
    of the three files. *)
Theorem read_obs_leaves_out_anchor :
  read_obs inventory_sample
  = (mkDataFrame (rows inventory_sample) (Some [None; Some 0; Some 0]),
     Ok [Summary.mkRow 0 900000000000 1800000000000 (22 # 100) 45 870 200]) /\
  Timedelta_round_s (Timedelta_s (Qsum (DELTA <$> rows inventory_sample)))
  = 2700000000000 /\
  round2 (Qsum (Size <$> rows inventory_sample) / 1024) = (32 # 100)%Q.
Proof. repeat split. Qed.

(** * Further properties *)

(** ** The chunk planner: accounting, growth and degenerate thresholds *)

Lemma length_concat_snoc {A} (ls : list (list A)) (l : list A) :
  length (concat (ls ++ [l])) = (length (concat ls) + length l)%nat.
Proof. rewrite concat_app, length_app. simpl. by rewrite app_nil_r. Qed.

(** X1. Every input row is accounted for: it is in a returned chunk, or in
    the running chunk that is not returned, or it was the row under the
    cursor when a chunk was closed.  Exactly one row is lost per returned
    chunk. *)
Theorem chunk_files_accounting (obs : DataFrame) (threshold : Q) :
  length (rows obs)
  = (length (concat (chunk_files obs threshold))
     + length (chunk_files obs threshold)
     + length (Chunker.file_chunk (Chunker.loop threshold (rows obs))))%nat.
Proof.
  unfold chunk_files. induction (rows obs) as [|r rs IH] using rev_ind; [done|].
  rewrite loop_snoc, length_app. unfold Chunker.step.
  destruct (Qltb _ _); simpl.
  - rewrite length_app. simpl. lia.
  - rewrite length_concat_snoc, length_app. simpl. lia.
Qed.


Lemma loop_chunks_grow (threshold : Q) (rs : list FileRecord) (st : Chunker.state) :
  Chunker.chunks st `prefix_of` Chunker.chunks (foldl (Chunker.step threshold) st rs).
Proof.
  revert st. induction rs as [|r rs IH]; intros st; simpl; [done|].
  etransitivity; [|apply IH]. unfold Chunker.step.
  destruct (Qltb _ _); simpl; [done|]. by apply prefix_app_r.
Qed.

(** X3. Chunks already closed are final: the chunks of a list of files are
    a prefix of the chunks of any extension of that list. *)
Theorem chunk_files_prefix (obs more : DataFrame) (threshold : Q) :
  rows obs `prefix_of` rows more ->
  chunk_files obs threshold `prefix_of` chunk_files more threshold.
Proof.
  intros [rs' Hrs]. unfold chunk_files, Chunker.loop. rewrite Hrs, foldl_app.
  apply loop_chunks_grow.
Qed.

Lemma chunk_files_prefix_witness :
  chunk_files (frame [sized "f1" 100; sized "f2" 100; sized "f3" 50]) 200
  `prefix_of` chunk_files obs_sample 200.
Proof.
  apply (chunk_files_prefix (frame [sized "f1" 100; sized "f2" 100; sized "f3" 50])
           obs_sample 200).
  by exists [sized "f4" 200; sized "f5" 1].
Defined.

(** X4. With a threshold that is not positive no file is ever put in a
    chunk: each input row closes an empty chunk. *)
Theorem chunk_files_nonpositive_threshold (obs : DataFrame) (threshold : Q) :
  (threshold <= 0)%Q ->
  chunk_files obs threshold = replicate (length (rows obs)) [].
Proof.
  intros Hthr. unfold chunk_files.
  enough (H : Chunker.loop threshold (rows obs)
              = Chunker.mkState (replicate (length (rows obs)) []) [] 0%Q)
    by (by rewrite H).
  induction (rows obs) as [|r rs IH] using rev_ind; [done|].
  rewrite loop_snoc, IH, length_app, Nat.add_1_r, replicate_S_end.
  unfold Chunker.step. simpl.
  by apply Qltb_ge in Hthr as ->.
Qed.

Lemma chunk_files_nonpositive_threshold_witness :
  chunk_files obs_sample 0 = replicate (length (rows obs_sample)) [].
Proof. apply (chunk_files_nonpositive_threshold obs_sample 0). discriminate. Defined.

Lemma Qsum_nonneg (l : list Q) : Forall (fun x => (0 <= x)%Q) l -> (0 <= Qsum l)%Q.
Proof. induction 1 as [|x l Hx _ IH]; simpl; lra. Qed.




(** ** The loader: ranges *)

(** Line 124 with fewer than two chunks. *)
Lemma clamp_few_chunks (env : Env) (obs : DataFrame) (start stop : Z)
    (threshold : Q) :
  (length (chunk_files obs threshold) < 2)%nat ->
  Z.of_nat (length (chunk_files obs threshold)) < stop ->
  load_fits env obs (Some (start, stop)) threshold = Raise IndexError.
Proof.
  intros Hfew Hlt. unfold load_fits. cbv zeta.
  change (default (0, 10) (Some (start, stop))) with (start, stop).
  destruct (clamp_beyond (chunk_files obs threshold) (start, stop) Hlt)
    as [->|(c0 & c1 & rest & Hcs & _)]; [done|].
  rewrite Hcs in Hfew. simpl in Hfew. lia.
Qed.

(** X6. With fewer than two chunks an end index beyond the number of
    chunks raises [IndexError] at line 124, whatever the start index and
    the files. *)
Theorem load_fits_few_chunks (env : Env) (obs : DataFrame) (start stop : Z)
    (threshold : Q) :
  (length (chunk_files obs threshold) < 2)%nat ->
  Z.of_nat (length (chunk_files obs threshold)) < stop ->
  load_fits env obs (Some (start, stop)) threshold = Raise IndexError.
Proof. apply clamp_few_chunks. Qed.

Lemma load_fits_few_chunks_witness :
  load_fits env_sample (frame [sized "f1" 200; sized "f2" 1]) (Some (0, 5)) 200
  = Raise IndexError.
Proof.
  apply (load_fits_few_chunks env_sample (frame [sized "f1" 200; sized "f2" 1])
           0 5 200); vm_compute; [lia | reflexivity].
Defined.

(** X7. Called without [chunks_idx], [load_fits] asks for the range
    [0, 10): on an observation of fewer than ten chunks it never returns
    an array. *)
Theorem load_fits_default_range (env : Env) (obs : DataFrame) (threshold : Q) :
  (length (chunk_files obs threshold) < 10)%nat ->
  exists e, load_fits env obs None threshold = Raise e.
Proof.
  intros Hlt.
  change (load_fits env obs None threshold)
    with (load_fits env obs (Some (0, 10)) threshold).
  apply load_fits_beyond_raises. lia.
Qed.

Lemma load_fits_default_range_witness :
  exists e, load_fits env_sample obs_three_chunks None 200 = Raise e.
Proof.
  apply (load_fits_default_range env_sample obs_three_chunks 200).
  vm_compute. lia.
Defined.



Lemma slice_insert_before {A} (l : list A) (x : A) (i : nat) (start stop stop' : Z) :
  Z.of_nat i < start -> Z.of_nat i < Z.of_nat (length l) ->
  Z.of_nat (length l) <= stop -> Z.of_nat (length l) <= stop' ->
  Loader.slice (<[i := x]> l) start stop = Loader.slice l start stop'.
Proof.
  intros Hi Hlen Hstop Hstop'. unfold Loader.slice, Loader.slice_bound.
  rewrite length_insert.
  destruct (Z.ltb_spec start 0); [lia|].
  destruct (Z.ltb_spec stop 0); [lia|]. destruct (Z.ltb_spec stop' 0); [lia|].
  rewrite (Z.min_r stop), (Z.min_r stop') by lia.
  rewrite drop_insert_lt by lia. reflexivity.
Qed.

(** X9. When the range starts at chunk 2 or later, an end index beyond
    the number of chunks does behave like the number of chunks: the
    integer stored in the second place is outside the slice, and slicing
    stops at the end of the list. *)
Theorem load_fits_end_beyond_from_two (env : Env) (obs : DataFrame)
    (start stop : Z) (threshold : Q) :
  2 <= start ->
  (2 <= length (chunk_files obs threshold))%nat ->
  Z.of_nat (length (chunk_files obs threshold)) < stop ->
  load_fits env obs (Some (start, stop)) threshold
  = load_fits env obs (Some (start, Z.of_nat (length (chunk_files obs threshold))))
      threshold.
Proof.
  intros Hstart Hn Hstop. unfold load_fits. cbv zeta.
  change (default (0, 10) (Some (start, stop))) with (start, stop).
  change (default (0, 10) (Some (start, ?n))) with (start, n).
  set (chunks := Loader.Chunk <$> chunk_files obs threshold).
  assert (Hlen : length chunks = length (chunk_files obs threshold))
    by apply length_fmap.
  unfold Loader.clamp. cbn [fst snd]. rewrite Hlen.
  destruct (Z.ltb_spec (Z.of_nat (length (chunk_files obs threshold))) stop); [|lia].
  rewrite Z.ltb_irrefl, bool_decide_eq_true_2 by lia.
  cbn [mbind result_bind].
  rewrite (slice_insert_before chunks _ 1 start stop
             (Z.of_nat (length (chunk_files obs threshold)))) by lia.
  reflexivity.
Qed.

Lemma load_fits_end_beyond_from_two_witness :
  load_fits env_sample obs_three_chunks (Some (2, 1000)) 200
  = load_fits env_sample obs_three_chunks
      (Some (2, Z.of_nat (length (chunk_files obs_three_chunks 200)))) 200.
Proof.
  apply (load_fits_end_beyond_from_two env_sample obs_three_chunks 2 1000 200);
    vm_compute; [discriminate | lia | reflexivity].
Defined.

(** ** The loader: what is loaded *)

Lemma read_file_Ok (env : Env) (st st' : Loader.state) (file : string) :
  Loader.read_file env st file = Ok st' ->
  exists c,
    file_content env file = Ok c /\
    st' = Loader.mkState (Loader.data st ++ [c.1.1]) (Loader.timestamps st ++ [c.1.2])
            (Loader.arr st) (Some c.2).
Proof.
  unfold Loader.read_file, file_content.
  destruct (fits_open env file) as [hdul|]; [|discriminate].
  cbn [mbind result_bind]. destruct (to_datetime env _) as [start|]; [|discriminate].
  cbn [mbind result_bind]. intros [= <-]. by eexists.
Qed.

Lemma read_files_Ok (env : Env) (files : list string) (st st' : Loader.state) :
  foldlM (Loader.read_file env) st files = Ok st' ->
  exists cs,
    Forall2 (fun f c => file_content env f = Ok c) files cs /\
    Loader.data st' = Loader.data st ++ cs.*1.*1 /\
    Loader.timestamps st' = Loader.timestamps st ++ cs.*1.*2 /\
    Loader.arr st' = Loader.arr st /\
    Loader.freqs st' = from_option Some (Loader.freqs st) (last cs.*2).
Proof.
  revert st. induction files as [|f files IH]; intros st; simpl.
  - intros [= <-]. exists []. simpl. by rewrite !app_nil_r.
  - destruct (Loader.read_file env st f) as [st1|] eqn:Hf; [|discriminate].
    intros Hrest. apply read_file_Ok in Hf as (c & Hc & ->).
    apply IH in Hrest as (cs & Hcs & Hd & Ht & Ha & Hfr). simpl in *.
    exists (c :: cs). rewrite Hd, Ht, Ha, Hfr, <- !app_assoc.
    split; [by constructor|]. repeat split.
    destruct cs as [|c' cs]; [done|]. rewrite !fmap_cons.
    change (last (c.2 :: c'.2 :: cs.*2)) with (last (c'.2 :: cs.*2)).
    destruct (last (c'.2 :: cs.*2)) eqn:Hl; [done|]. by apply last_None in Hl.
Qed.

Lemma read_chunks_Ok (env : Env) (chs : list (list string)) (st st' : Loader.state) :
  foldlM (Loader.read_chunk env) st (Loader.Chunk <$> chs) = Ok st' ->
  exists cs,
    Forall2 (fun f c => file_content env f = Ok c) (concat chs) cs /\
    Loader.data st' = Loader.data st ++ cs.*1.*1 /\
    Loader.timestamps st' = Loader.timestamps st ++ cs.*1.*2 /\
    Loader.freqs st' = from_option Some (Loader.freqs st) (last cs.*2) /\
    Loader.arr st'
    = match chs with
      | [] => Loader.arr st
      | _ => Some (Loader.mkArrays (concat (Loader.data st'))
                     (concat (Loader.timestamps st')))
      end.
Proof.
  revert st. induction chs as [|ch chs IH]; intros st.
  - simpl. intros [= <-]. exists []. simpl. by rewrite !app_nil_r.
  - rewrite fmap_cons. cbn [foldlM].
    destruct (Loader.read_chunk env st (Loader.Chunk ch)) as [st1|] eqn:Hch;
      [|discriminate].
    intros Hrest. unfold Loader.read_chunk in Hch.
    destruct (foldlM (Loader.read_file env) st ch) as [st0|] eqn:Hfiles;
      [|discriminate].
    cbn [mbind result_bind] in Hch.
    destruct (Loader.concatenate (Loader.data st0)) as [d|] eqn:Hd; [|discriminate].
    cbn [mbind result_bind] in Hch. injection Hch as <-.
    assert (d = concat (Loader.data st0)) as ->.
    { unfold Loader.concatenate in Hd. destruct (Loader.data st0); [discriminate|].
      destruct (Loader.uniform _); by inversion Hd. }
    apply read_files_Ok in Hfiles as (cs0 & Hcs0 & Hd0 & Ht0 & _ & Hf0).
    apply IH in Hrest as (cs1 & Hcs1 & Hd1 & Ht1 & Hf1 & Ha1).
    cbn [Loader.data Loader.timestamps Loader.freqs Loader.arr] in *.
    exists (cs0 ++ cs1). rewrite !fmap_app.
    split; [by apply Forall2_app|].
    split; [by rewrite Hd1, Hd0, <- app_assoc|].
    split; [by rewrite Ht1, Ht0, <- app_assoc|].
    split.
    + rewrite Hf1, Hf0, last_app. by destruct (last cs1.*2).
    + rewrite Ha1. destruct chs as [|ch' chs]; [|done].
      apply Forall2_nil_inv_l in Hcs1 as ->. simpl in Hd1, Ht1.
      by rewrite Hd1, Ht1, !app_nil_r.
Qed.

Lemma slice_fmap {A B} (f : A -> B) (l : list A) (start stop : Z) :
  Loader.slice (f <$> l) start stop = f <$> Loader.slice l start stop.
Proof.
  unfold Loader.slice. by rewrite length_fmap, fmap_take, fmap_drop.
Qed.

Lemma load_fits_in_range (env : Env) (obs : DataFrame) (start stop : Z)
    (threshold : Q) :
  stop <= Z.of_nat (length (chunk_files obs threshold)) ->
  load_fits env obs (Some (start, stop)) threshold
  = (st ← foldlM (Loader.read_chunk env) Loader.init
            (Loader.Chunk <$> Loader.slice (chunk_files obs threshold) start stop);
     match Loader.arr st, Loader.freqs st with
     | Some a, Some f =>
         if bool_decide (length (Loader.dda a) = length (Loader.time_index a)
                         /\ Forall (fun row => length row = length f) (Loader.dda a))
         then Ok (mkDataArray (Loader.dda a) (Loader.time_index a) f)
         else Raise ValueError
     | _, _ => Raise UnboundLocalError
     end).
Proof.
  intros Hstop. unfold load_fits, Loader.clamp. cbv zeta.
  change (default (0, 10) (Some (start, stop))) with (start, stop).
  cbn [fst snd]. rewrite length_fmap.
  destruct (Z.ltb_spec (Z.of_nat (length (chunk_files obs threshold))) stop); [lia|].
  cbn [mbind result_bind]. by rewrite slice_fmap.
Qed.

(** What a call that returns has read. *)
Lemma load_fits_Ok_content (env : Env) (obs : DataFrame) (start stop : Z)
    (threshold : Q) (Xda : DataArray) :
  stop <= Z.of_nat (length (chunk_files obs threshold)) ->
  load_fits env obs (Some (start, stop)) threshold = Ok Xda ->
  exists cs,
    Forall2 (fun f c => file_content env f = Ok c)
      (concat (Loader.slice (chunk_files obs threshold) start stop)) cs /\
    values Xda = concat cs.*1.*1 /\
    Time Xda = concat cs.*1.*2 /\
    last cs.*2 = Some (Freq Xda) /\
    length (values Xda) = length (Time Xda) /\
    Forall (fun row => length row = length (Freq Xda)) (values Xda).
Proof.
  intros Hstop. rewrite load_fits_in_range by done.
  destruct (foldlM _ _ _) as [st|] eqn:Hst; [|discriminate].
  cbn [mbind result_bind].
  apply read_chunks_Ok in Hst as (cs & Hcs & Hd & Ht & Hf & Ha).
  simpl in Hd, Ht, Hf.
  destruct (Loader.arr st) as [a|] eqn:Harr; [|discriminate].
  destruct (Loader.freqs st) as [f|] eqn:Hfreq; [|discriminate].
  destruct (bool_decide _) eqn:Hshape; [|discriminate].
  apply bool_decide_eq_true in Hshape as [Hrows Hcols].
  intros [= <-]. simpl.
  destruct (Loader.slice (chunk_files obs threshold) start stop) as [|ch chs];
    [discriminate|].
  injection Ha as ->. simpl in *.
  exists cs. rewrite <- Hd, <- Ht.
  repeat split; try done.
  destruct (last cs.*2); simpl in Hf; congruence.
Qed.



(** X11. A file of the selected chunks that cannot be read aborts the
    whole load: there is no partial array. *)
Theorem load_fits_unreadable_file (env : Env) (obs : DataFrame) (start stop : Z)
    (threshold : Q) (file : string) (e : exn) :
  stop <= Z.of_nat (length (chunk_files obs threshold)) ->
  file ∈ concat (Loader.slice (chunk_files obs threshold) start stop) ->
  file_content env file = Raise e ->
  exists e', load_fits env obs (Some (start, stop)) threshold = Raise e'.
Proof.
  intros Hstop Hin Hfile.
  destruct (load_fits env obs (Some (start, stop)) threshold) as [Xda|e'] eqn:H;
    [|by eexists].
  apply load_fits_Ok_content in H as (cs & Hcs & _); [|done].
  apply list_elem_of_lookup in Hin as [i Hi].
  destruct (Forall2_lookup_l _ _ _ _ _ Hcs Hi) as (c & _ & Hc). congruence.
Qed.

Lemma load_fits_unreadable_file_witness :
  exists e',
    load_fits (mkEnv [] (fun _ => 0) (fun _ => Raise OSError) (fun _ => Ok 0))
      obs_three_chunks (Some (0, 3)) 200 = Raise e'.
Proof.
  apply (load_fits_unreadable_file
           (mkEnv [] (fun _ => 0) (fun _ => Raise OSError) (fun _ => Ok 0))
           obs_three_chunks 0 3 200 "f3" OSError).
  - vm_compute. discriminate.
  - apply list_elem_of_In. vm_compute. tauto.
  - reflexivity.
Defined.

(** ** The inventory: failure and content *)

(** Without files [cols] is never assigned. *)
Lemma read_fits_no_file (env : Env) :
  glob_fit env = [] -> read_fits env = Raise UnboundLocalError.
Proof. intros Hglob. unfold read_fits. by rewrite Hglob. Qed.

(** X12. On a directory without [.fit] files [read_fits] does not return
    an empty inventory: [cols] is only assigned inside the loop and line 31
    raises [UnboundLocalError]. *)
Theorem read_fits_empty_directory (env : Env) :
  glob_fit env = [] -> read_fits env = Raise UnboundLocalError.
Proof. apply read_fits_no_file. Qed.

Lemma read_fits_empty_directory_witness :
  read_fits (mkEnv [] (fun _ => 0) (fun _ => Raise OSError) (fun _ => Ok 0))
  = Raise UnboundLocalError.
Proof.
  apply (read_fits_empty_directory
           (mkEnv [] (fun _ => 0) (fun _ => Raise OSError) (fun _ => Ok 0))).
  reflexivity.
Defined.

Lemma mapM_Ok_inv {A B} (f : A -> result B) (l : list A) (ys : list B) :
  mapM f l = Ok ys -> Forall2 (fun x y => f x = Ok y) l ys.
Proof.
  revert ys. induction l as [|x l IH]; intros ys; cbn [mapM].
  - intros [= <-]. constructor.
  - destruct (f x) as [y|] eqn:Hy; [|discriminate]. cbn [mbind result_bind].
    fold (mapM f l). destruct (mapM f l) as [ys'|]; [|discriminate].
    cbn [mbind result_bind]. intros [= <-]. constructor; [done|]. by apply IH.
Qed.

Lemma read_fits_Ok_rows (env : Env) (df : DataFrame) :
  read_fits env = Ok df ->
  exists rs,
    Forall2 (row_of env) (glob_fit env) rs /\
    df = frame (merge_sort Inventory.key_le rs).
Proof.
  unfold read_fits.
  destruct (mapM (Inventory.scan env) (glob_fit env)) as [hs|] eqn:Hhs; [|discriminate].
  cbn [mbind result_bind]. destruct hs as [|h hs]; [discriminate|].
  destruct (mapM (Inventory.typed env) (h :: hs)) as [rs|] eqn:Hrs; [|discriminate].
  cbn [mbind result_bind]. intros [= <-]. exists rs. split; [|done].
  apply mapM_Ok_inv in Hhs, Hrs.
  remember (h :: hs) as raws eqn:Hraws. clear Hraws h hs.
  revert rs Hrs. induction Hhs as [|f raw fs raws Hf _ IH]; intros rs Hrs.
  - apply Forall2_nil_inv_l in Hrs as ->. constructor.
  - apply Forall2_cons_inv_l in Hrs as (r & rs' & Hr & Hrs' & ->).
    constructor; [|by apply IH].
    unfold Inventory.scan in Hf.
    destruct (fits_open env f) as [hdul|] eqn:Ho; [|discriminate].
    cbn [mbind result_bind] in Hf.
    destruct (last (Fits.TIME hdul)) as [delta|] eqn:Hl; [|discriminate].
    injection Hf as <-. unfold Inventory.typed in Hr.
    destruct (to_datetime env _) as [start|] eqn:Hd; [|discriminate].
    cbn [mbind result_bind] in Hr. injection Hr as <-.
    by exists hdul, delta, start.
Qed.

(** X13. What [read_fits] returns has no [Grupo] column and exactly one
    row per file of the directory, in some order: the row of a file holds
    its path, its size in MiB, its header fields with the frequencies
    divided by 1e6, its last time offset and its parsed start. *)
Theorem read_fits_rows (env : Env) (df : DataFrame) :
  read_fits env = Ok df ->
  Grupo df = None /\
  exists rs,
    Forall2 (row_of env) (glob_fit env) rs /\
    rows df ≡ₚ rs /\
    File <$> rows df ≡ₚ glob_fit env.
Proof.
  intros (rs & Hrs & ->)%read_fits_Ok_rows. split; [done|].
  exists rs. simpl. split; [done|]. split; [apply merge_sort_Permutation|].
  rewrite merge_sort_Permutation.
  clear -Hrs. induction Hrs as [|f r fs rs Hr _ IH]; [done|].
  rewrite fmap_cons, IH. destruct Hr as (? & ? & ? & _ & _ & _ & ->). done.
Qed.

Lemma read_fits_rows_witness :
  exists df,
    read_fits env_sample = Ok df /\
    File <$> rows df ≡ₚ glob_fit env_sample.
Proof.
  destruct (read_fits env_sample) as [df|] eqn:H; [|vm_compute in H; discriminate].
  exists df. split; [done|].
  by destruct (read_fits_rows env_sample df H) as (_ & rs & _ & _ & Hperm).
Defined.

(** X14. [read_fits] returns an inventory only when the directory is not
    empty and every file in it opens, has a non-empty time axis and a date
    that parses: one bad file makes the whole scan fail. *)
Theorem read_fits_needs_every_file (env : Env) (df : DataFrame) :
  read_fits env = Ok df ->
  glob_fit env <> [] /\ Forall (scannable env) (glob_fit env).
Proof.
  intros H. split.
  - intros Hglob. by rewrite (read_fits_no_file env Hglob) in H.
  - apply read_fits_Ok_rows in H as (rs & Hrs & _).
    induction Hrs as [|f r fs rs Hr _ IH]; constructor; [|done].
    destruct Hr as (hdul & delta & start & Ho & Hl & Hd & _).
    exists hdul, start. repeat split; [done| |done].
    intros Hnil. by rewrite Hnil in Hl.
Qed.

Lemma read_fits_needs_every_file_witness :
  glob_fit env_sample <> [] /\ Forall (scannable env_sample) (glob_fit env_sample).
Proof.
  destruct (read_fits env_sample) as [df|] eqn:H; [|vm_compute in H; discriminate].
  exact (read_fits_needs_every_file env_sample df H).
Defined.

(** ** [groupby]: the groups partition the input, in key order *)

Lemma StronglySorted_lookup_lt {A} (R : relation A) (l : list A) i j x y :
  StronglySorted R l -> l !! i = Some x -> l !! j = Some y -> (i < j)%nat -> R x y.
Proof.
  intros Hs. revert i j. induction Hs as [|a l _ IH Hall]; intros i j Hi Hj Hij.
  - discriminate.
  - destruct j as [|j]; [lia|]. destruct i as [|i]; simpl in *.
    + injection Hi as <-. rewrite Forall_forall in Hall.
      apply Hall. by eapply list_elem_of_lookup_2.
    + apply (IH i j); [done | done | lia].
Qed.

Section groupby_partition.
Context {K A : Type} (cmp : K -> K -> comparison).

Lemma group_insert_perm k a (gs : list (K * list A)) :
  concat (group_insert cmp k a gs).*2 ≡ₚ a :: concat gs.*2.
Proof.
  induction gs as [|[k0 g0] gs IH]; [done|]. simpl.
  destruct (cmp k k0); simpl.
  - rewrite <- app_assoc. simpl. by rewrite <- Permutation_middle.
  - done.
  - rewrite IH. by rewrite <- Permutation_middle.
Qed.

(** Every entry of the input is in exactly one group. *)
Lemma groupby_perm (l : list (K * A)) : concat (groupby cmp l).*2 ≡ₚ l.*2.
Proof.
  unfold groupby. induction l as [|[k a] l IH] using rev_ind; [done|].
  rewrite foldl_snoc, group_insert_perm, IH, fmap_app. simpl.
  by rewrite <- Permutation_cons_append.
Qed.

Lemma group_insert_sublist k a (gs : list (K * list A)) (l : list A) :
  Forall (fun kg => kg.2 `sublist_of` l) gs ->
  Forall (fun kg => kg.2 `sublist_of` l ++ [a]) (group_insert cmp k a gs).
Proof.
  induction 1 as [|[k0 g0] gs Hg Hgs IH]; simpl.
  - constructor; [|done]. simpl. by apply sublist_inserts_l.
  - destruct (cmp k k0).
    + constructor; [by apply sublist_app|].
      eapply Forall_impl; [exact Hgs|]. intros ? ?. by apply sublist_inserts_r.
    + constructor; [simpl; by apply sublist_inserts_l|].
      constructor; [by apply sublist_inserts_r|].
      eapply Forall_impl; [exact Hgs|]. intros ? ?. by apply sublist_inserts_r.
    + constructor; [by apply sublist_inserts_r | exact IH].
Qed.

(** The members of a group come in the order of the input. *)
Lemma groupby_sublist (l : list (K * A)) :
  Forall (fun kg => kg.2 `sublist_of` l.*2) (groupby cmp l).
Proof.
  unfold groupby. induction l as [|[k a] l IH] using rev_ind; [constructor|].
  rewrite foldl_snoc, fmap_app. simpl. by apply group_insert_sublist.
Qed.

Context (Hord : cmp_order cmp).

Lemma group_insert_sorted k a (gs : list (K * list A)) :
  StronglySorted (fun x y => cmp x.1 y.1 = Lt) gs ->
  StronglySorted (fun x y => cmp x.1 y.1 = Lt) (group_insert cmp k a gs).
Proof.
  induction 1 as [|[k0 g0] gs Hs IH Hall]; simpl.
  - repeat constructor.
  - destruct (cmp k k0) eqn:Hc.
    + constructor; [done|]. exact Hall.
    + constructor; [by constructor|]. constructor; [done|].
      eapply Forall_impl; [exact Hall|]. intros y Hy. simpl in *.
      by apply (cmp_lt_trans _ Hord k k0 y.1).
    + constructor; [exact IH|]. apply Forall_forall. intros [k' g'] Hin.
      rewrite Forall_forall in Hall. simpl.
      apply group_insert_elem in Hin as [Hin|[[-> ->]|(g & Hin & -> & _)]].
      * by apply (Hall (k', g')).
      * by apply (cmp_gt_lt _ Hord).
      * by apply (Hall (k', g)).
Qed.

(** The groups come in strictly ascending key order. *)
Lemma groupby_sorted (l : list (K * A)) :
  StronglySorted (fun x y => cmp x.1 y.1 = Lt) (groupby cmp l).
Proof.
  unfold groupby. induction l as [|[k a] l IH] using rev_ind; [constructor|].
  rewrite foldl_snoc. by apply group_insert_sorted.
Qed.

(** The key of a member compares equal to the key of its group. *)
Lemma groupby_member_key (l : list (K * A)) k g x :
  (k, g) ∈ groupby cmp l -> x ∈ g -> exists k0, (k0, x) ∈ l /\ cmp k0 k = Eq.
Proof.
  intros Hg Hx. destruct (groupby_elem cmp l k g x Hg Hx) as (k0 & Hin & [->|Hc]).
  - exists k. split; [done|]. apply (cmp_refl _ Hord).
  - by exists k0.
Qed.

(** Two groups do not share a key: members whose keys compare equal are
    in the same group. *)
Lemma groupby_same_group (l : list (K * A)) p q kp gp kq gq kx ky :
  groupby cmp l !! p = Some (kp, gp) ->
  groupby cmp l !! q = Some (kq, gq) ->
  cmp kx kp = Eq -> cmp ky kq = Eq -> cmp kx ky = Eq ->
  p = q.
Proof.
  intros Hp Hq Hxp Hyq Hxy.
  assert (Hpq : cmp kp kq = Eq).
  { rewrite <- (cmp_eq_l _ Hord kx kp kq Hxp).
    by rewrite <- (cmp_eq_r _ Hord ky kq kx Hyq). }
  pose proof (groupby_sorted l) as Hs.
  destruct (Nat.lt_trichotomy p q) as [Hlt|[->|Hlt]]; [|done|].
  - apply (StronglySorted_lookup_lt _ _ _ _ _ _ Hs Hp Hq) in Hlt. simpl in Hlt. congruence.
  - apply (StronglySorted_lookup_lt _ _ _ _ _ _ Hs Hq Hp) in Hlt. simpl in Hlt.
    apply (cmp_sym _ Hord) in Hpq. congruence.
Qed.

End groupby_partition.

Lemma Z_compare_order : cmp_order Z.compare.
Proof.
  split.
  - apply Z.compare_refl.
  - intros a b ->%Z.compare_eq. apply Z.compare_refl.
  - intros a b H. apply Z.compare_lt_iff. apply Z.compare_gt_iff in H. lia.
  - intros a b c. rewrite !Z.compare_lt_iff. lia.
  - by intros a b c ->%Z.compare_eq.
  - by intros a b c ->%Z.compare_eq.
Qed.

Lemma bucket_cmp_Eq (a b : Grouper.bucket) :
  Grouper.bucket_cmp a b = Eq <->
  (a.1.1 == b.1.1)%Q /\ (a.1.2 == b.1.2)%Q /\ a.2 = b.2.
Proof.
  unfold Grouper.bucket_cmp.
  destruct (Qcompare_spec a.1.1 b.1.1) as [H1|H1|H1];
    [|split; [done|intros (? & _); lra]..].
  destruct (Qcompare_spec a.1.2 b.1.2) as [H2|H2|H2];
    [|split; [done|intros (_ & ? & _); lra]..].
  rewrite Z.compare_eq_iff. tauto.
Qed.

Lemma bucket_cmp_Lt (a b : Grouper.bucket) :
  Grouper.bucket_cmp a b = Lt <->
  (a.1.1 < b.1.1)%Q \/
  ((a.1.1 == b.1.1)%Q /\
   ((a.1.2 < b.1.2)%Q \/ ((a.1.2 == b.1.2)%Q /\ a.2 < b.2))).
Proof.
  unfold Grouper.bucket_cmp.
  destruct (Qcompare_spec a.1.1 b.1.1) as [H1|H1|H1].
  - destruct (Qcompare_spec a.1.2 b.1.2) as [H2|H2|H2].
    + rewrite Z.compare_lt_iff. split; [by auto|].
      intros [?|(_ & [?|[_ ?]])]; [lra | lra | done].
    + split; [by auto | done].
    + split; [done|]. intros [?|(_ & [?|[? _]])]; lra.
  - split; [by auto | done].
  - split; [done|]. intros [?|[? _]]; lra.
Qed.

Lemma bucket_cmp_Gt (a b : Grouper.bucket) :
  Grouper.bucket_cmp a b = Gt -> Grouper.bucket_cmp b a = Lt.
Proof.
  intros H. apply bucket_cmp_Lt. revert H. unfold Grouper.bucket_cmp.
  destruct (Qcompare_spec a.1.1 b.1.1) as [H1|H1|H1]; [|done|by left].
  destruct (Qcompare_spec a.1.2 b.1.2) as [H2|H2|H2];
    [|done|intros _; right; split; [lra | by left]].
  intros Hz%Z.compare_gt_iff. right. split; [lra|]. right. split; [lra | done].
Qed.

Lemma bucket_cmp_order : cmp_order Grouper.bucket_cmp.
Proof.
  split.
  - intros a. by apply bucket_cmp_Eq.
  - intros a b (? & ? & ?)%bucket_cmp_Eq. apply bucket_cmp_Eq.
    repeat split; [lra | lra | done].
  - apply bucket_cmp_Gt.
  - intros a b c Hab%bucket_cmp_Lt Hbc%bucket_cmp_Lt. apply bucket_cmp_Lt.
    destruct Hab as [?|(? & [?|(? & ?)])], Hbc as [?|(? & [?|(? & ?)])];
      first [left; lra
            | right; split; [lra|]; first [left; lra | right; split; [lra | lia]]].
  - intros a b c (H1 & H2 & H3)%bucket_cmp_Eq. unfold Grouper.bucket_cmp.
    by rewrite H1, H2, H3.
  - intros a b c (H1 & H2 & H3)%bucket_cmp_Eq. unfold Grouper.bucket_cmp.
    by rewrite H1, H2, H3.
Qed.

Lemma same_bucket_cmp (a b : FileRecord) :
  same_bucket a b <->
  Grouper.bucket_cmp (Grouper.bucket_of a) (Grouper.bucket_of b) = Eq.
Proof. by rewrite bucket_cmp_Eq. Qed.

(** ** The buckets of [read_obs] *)

Lemma NoDup_concat_lookup {A} (ls : list (list A)) p q a b z :
  NoDup (concat ls) -> ls !! p = Some a -> ls !! q = Some b ->
  z ∈ a -> z ∈ b -> p = q.
Proof.
  revert p q. induction ls as [|c ls IH]; intros p q Hnd Hp Hq Ha Hb; [done|].
  simpl in Hnd. apply NoDup_app in Hnd as (_ & Hdisj & Hnd).
  assert (Hin : forall n d, ls !! n = Some d -> z ∈ d -> z ∈ concat ls).
  { intros n d Hn Hz. apply list_elem_of_In, in_concat. exists d.
    split; apply list_elem_of_In; [by eapply list_elem_of_lookup_2 | done]. }
  destruct p as [|p], q as [|q]; simpl in *.
  - done.
  - injection Hp as <-. exfalso. apply (Hdisj z Ha). by eapply Hin.
  - injection Hq as <-. exfalso. apply (Hdisj z Hb). by eapply Hin.
  - f_equal. by apply IH.
Qed.

Lemma StronglySorted_sublist {A} (R : relation A) (l k : list A) :
  l `sublist_of` k -> StronglySorted R k -> StronglySorted R l.
Proof.
  induction 1 as [|x l k Hlk IH|x l k Hlk IH]; intros Hs; [done| |].
  - apply StronglySorted_inv in Hs as [Hs Hall]. constructor; [by apply IH|].
    rewrite Forall_forall in *. intros y Hy. apply Hall.
    by eapply elem_of_sublist.
  - apply StronglySorted_inv in Hs as [Hs _]. by apply IH.
Qed.

Lemma imap_pair_sorted {A} (l : list A) (start : nat) :
  StronglySorted (fun x y : nat * A => (x.1 < y.1)%nat)
    (imap (fun j => pair (start + j)%nat) l).
Proof.
  revert start. induction l as [|x l IH]; intros start; [constructor|].
  rewrite imap_cons. constructor.
  - erewrite imap_ext; [apply (IH (S start))|]. intros j y _. simpl. f_equal. lia.
  - apply Forall_forall. intros [j y] (n & ? & [= -> ->] & _)%elem_of_lookup_imap.
    simpl. lia.
Qed.

Section buckets_facts.
Variable df : DataFrame.

Lemma buckets_values :
  ((fun ir : nat * FileRecord => (Grouper.bucket_of ir.2, ir)) <$> imap pair (rows df)).*2
  = imap pair (rows df).
Proof. rewrite <- list_fmap_compose. apply list_fmap_id. Qed.

Lemma buckets_perm : concat (Grouper.buckets df).*2 ≡ₚ imap pair (rows df).
Proof. unfold Grouper.buckets. by rewrite groupby_perm, buckets_values. Qed.

(** A member of a bucket is a row of the table, under its label, and its
    key compares equal to the key of the bucket. *)
Lemma buckets_member b val i r :
  (b, val) ∈ Grouper.buckets df -> (i, r) ∈ val ->
  rows df !! i = Some r /\ Grouper.bucket_cmp (Grouper.bucket_of r) b = Eq.
Proof.
  intros Hb Hin.
  destruct (groupby_member_key _ bucket_cmp_order _ _ _ _ Hb Hin) as (k0 & Hk & Hc).
  apply list_elem_of_fmap in Hk as ([i' r'] & [= -> -> ->] & Hir).
  apply elem_of_lookup_imap in Hir as (n & ? & [= -> ->] & Hn). done.
Qed.

(** Every row is in some bucket. *)
Lemma buckets_cover i r :
  rows df !! i = Some r ->
  exists p b val, Grouper.buckets df !! p = Some (b, val) /\ (i, r) ∈ val.
Proof.
  intros Hi.
  assert (Hin : (i, r) ∈ concat (Grouper.buckets df).*2).
  { rewrite buckets_perm. by apply elem_of_lookup_imap_2. }
  apply list_elem_of_In, in_concat in Hin as (val & Hval & Hir).
  apply list_elem_of_In, list_elem_of_fmap in Hval as ([b val'] & -> & Hb).
  apply list_elem_of_lookup in Hb as [p Hp]. exists p, b, val'.
  split; [done|]. by apply list_elem_of_In.
Qed.

(** No label is in two buckets. *)
Lemma buckets_disjoint p q bp vp bq vq (x y : nat * FileRecord) :
  Grouper.buckets df !! p = Some (bp, vp) ->
  Grouper.buckets df !! q = Some (bq, vq) ->
  x ∈ vp -> y ∈ vq -> x.1 = y.1 -> p = q.
Proof.
  intros Hp Hq Hx Hy Hxy.
  apply (NoDup_concat_lookup (fmap (M:=list) fst <$> (Grouper.buckets df).*2)
           p q vp.*1 vq.*1 x.1).
  - rewrite concat_fmap_fmap, buckets_perm.
    change (imap pair (rows df)) with (imap (fun j => pair (0 + j)%nat) (rows df)).
    rewrite index_imap_pair. apply NoDup_seq.
  - by rewrite !list_lookup_fmap, Hp.
  - by rewrite !list_lookup_fmap, Hq.
  - by apply list_elem_of_fmap_2.
  - rewrite Hxy. by apply list_elem_of_fmap_2.
Qed.

(** Within a bucket the labels increase. *)
Lemma buckets_increasing b val :
  (b, val) ∈ Grouper.buckets df ->
  StronglySorted (fun x y : nat * FileRecord => (x.1 < y.1)%nat) val.
Proof.
  intros Hb. pose proof (groupby_sublist Grouper.bucket_cmp
    ((fun ir : nat * FileRecord => (Grouper.bucket_of ir.2, ir)) <$> imap pair (rows df)))
    as Hsub.
  rewrite Forall_forall in Hsub. specialize (Hsub _ Hb). simpl in Hsub.
  rewrite buckets_values in Hsub.
  eapply StronglySorted_sublist; [exact Hsub|]. apply (imap_pair_sorted _ 0).
Qed.

(** Two rows of one bucket are members of the same group. *)
Lemma buckets_same_group p q bp vp bq vq i j ri rj :
  Grouper.buckets df !! p = Some (bp, vp) ->
  Grouper.buckets df !! q = Some (bq, vq) ->
  (i, ri) ∈ vp -> (j, rj) ∈ vq -> same_bucket ri rj -> p = q.
Proof.
  intros Hp Hq Hi Hj Hsame.
  destruct (buckets_member bp vp i ri) as [_ Hci];
    [by eapply list_elem_of_lookup_2 | done |].
  destruct (buckets_member bq vq j rj) as [_ Hcj];
    [by eapply list_elem_of_lookup_2 | done |].
  apply same_bucket_cmp in Hsame.
  exact (groupby_same_group _ bucket_cmp_order _ p q bp vp bq vq _ _ Hp Hq Hci Hcj Hsame).
Qed.

End buckets_facts.

(** ** The grouper: which records are grouped, and when it fails *)

Lemma contiguous_label_in_tail (val : Series FileRecord) (i : nat) (b : bool) :
  (i, b) ∈ Grouper.contiguous val -> exists r, (i, r) ∈ tail val.
Proof.
  intros Hin.
  assert (Hidx : i ∈ Grouper.index (tail val)).
  { rewrite <- contiguous_index. by apply (list_elem_of_fmap_2 fst _ (i, b)). }
  apply list_elem_of_fmap in Hidx as ([i' r] & -> & Hr). by exists r.
Qed.

(** The first record of a bucket is never the later record of a pair. *)
Lemma first_of_bucket_ungrouped (df : DataFrame) (i : nat) (r : FileRecord) :
  Grupo df = None ->
  rows df !! i = Some r ->
  (forall j rj, (j < i)%nat -> rows df !! j = Some rj -> ~ same_bucket rj r) ->
  Grupo_at (read_obs df).1 i = None.
Proof.
  intros Hfresh Hi Hfirst.
  destruct (decide (Grupo_at (read_obs df).1 i = Grupo_at df i)) as [->|Hne].
  { unfold Grupo_at. by rewrite Hfresh. }
  destruct (read_obs_effect df) as [_ Hcells].
  destruct (Hcells i Hne) as (b & val & Hb & Hmark).
  apply contiguous_label_in_tail in Hmark as [r' Hr'].
  destruct val as [|[j rj] tl]; [by apply elem_of_nil in Hr'|]. simpl in Hr'.
  pose proof (buckets_increasing df b _ Hb) as Hs.
  apply StronglySorted_inv in Hs as [_ Hall]. rewrite Forall_forall in Hall.
  specialize (Hall _ Hr'). simpl in Hall.
  destruct (buckets_member df b _ j rj Hb) as [Hj Hcj]; [by left|].
  destruct (buckets_member df b _ i r' Hb) as [Hi' Hci]; [by right|].
  assert (r' = r) as -> by congruence.
  exfalso. apply (Hfirst j rj Hall Hj). apply same_bucket_cmp.
  rewrite (cmp_eq_l _ bucket_cmp_order _ _ _ Hcj).
  by apply (cmp_sym _ bucket_cmp_order).
Qed.

(** X15. In a table without [Grupo] column, a record that has no earlier
    record of its bucket in the table is never given a group number: the
    first record of every bucket stays outside every group. *)
Theorem read_obs_first_of_bucket (df : DataFrame) (i : nat) (r : FileRecord) :
  Grupo df = None ->
  rows df !! i = Some r ->
  (forall j rj, (j < i)%nat -> rows df !! j = Some rj -> ~ same_bucket rj r) ->
  Grupo_at (read_obs df).1 i = None.
Proof. apply first_of_bucket_ungrouped. Qed.

Lemma read_obs_first_of_bucket_witness :
  Grupo_at (read_obs inventory_sample).1 0%nat = None.
Proof.
  apply (read_obs_first_of_bucket inventory_sample 0%nat
           (mkFileRecord "a.fit" 100 3600 45 870 200 900 0)).
  - reflexivity.
  - reflexivity.
  - intros j rj Hj. lia.
Defined.

Lemma all_indexes_same_eq (vs : list (Series bool)) (w w' : Series bool) :
  Grouper.all_indexes_same vs = true -> w ∈ vs -> w' ∈ vs ->
  Grouper.index w = Grouper.index w'.
Proof.
  destruct vs as [|v vs]; [intros _ H; by apply elem_of_nil in H|].
  simpl. rewrite forallb_forall. intros Hall Hw Hw'.
  assert (Hv : forall u, u ∈ v :: vs -> Grouper.index u = Grouper.index v).
  { intros u [->|Hu]%elem_of_cons; [done|].
    apply list_elem_of_In, Hall in Hu. by apply bool_decide_eq_true in Hu. }
  by rewrite (Hv w), (Hv w').
Qed.

(** X16. [read_obs] cannot group an inventory that mixes buckets: as soon
    as two records share a bucket and a third record is in another one,
    the per-bucket results no longer form a DataFrame, [dfg.sum()] is a
    number and line 62 raises [AttributeError]; the table is left as it
    was. *)
Theorem read_obs_mixed_buckets (df : DataFrame) (i j k : nat)
    (ri rj rk : FileRecord) :
  rows df !! i = Some ri -> rows df !! j = Some rj -> i <> j ->
  same_bucket ri rj ->
  rows df !! k = Some rk -> ~ same_bucket ri rk ->
  read_obs df = (df, Raise AttributeError).
Proof.
  intros Hi Hj Hij Hsame Hk Hother. unfold read_obs.
  set (dfg := _ <$> Grouper.buckets df).
  destruct (Grouper.all_indexes_same dfg) eqn:Hall; [exfalso|done].
  destruct (buckets_cover df i ri Hi) as (p & bp & vp & Hp & Hip).
  destruct (buckets_cover df j rj Hj) as (p' & bp' & vp' & Hp' & Hjp).
  destruct (buckets_cover df k rk Hk) as (q & bq & vq & Hq & Hkq).
  assert (p' = p) as -> by (symmetry; by eapply (buckets_same_group df)).
  assert (vp' = vp) as -> by congruence. clear Hp'.
  assert (Hpq : p <> q).
  { intros ->. assert (vq = vp) as -> by congruence.
    apply Hother. apply same_bucket_cmp.
    destruct (buckets_member df bp vp i ri) as [_ Hci];
      [by eapply list_elem_of_lookup_2 | done |].
    destruct (buckets_member df bp vp k rk) as [_ Hck];
      [by eapply list_elem_of_lookup_2 | done |].
    rewrite (cmp_eq_l _ bucket_cmp_order _ _ _ Hci).
    by apply (cmp_sym _ bucket_cmp_order). }
  (* the bucket of [i] and [j] has a second record, hence a mark *)
  assert (Htl : exists z rz, (z, rz) ∈ tail vp).
  { destruct vp as [|x [|[z rz] tl]].
    - by apply elem_of_nil in Hip.
    - apply list_elem_of_singleton in Hip, Hjp. congruence.
    - exists z, rz. by left. }
  destruct Htl as (z & rz & Hz).
  assert (Hidx : Grouper.index (Grouper.contiguous vp)
                 = Grouper.index (Grouper.contiguous vq)).
  { apply (all_indexes_same_eq dfg); [done| |].
    - apply (list_elem_of_fmap_2' _ _ (bp, vp)); [by eapply list_elem_of_lookup_2|done].
    - apply (list_elem_of_fmap_2' _ _ (bq, vq)); [by eapply list_elem_of_lookup_2|done]. }
  rewrite !contiguous_index in Hidx.
  assert (Hzq : z ∈ Grouper.index (tail vq)).
  { rewrite <- Hidx. by apply (list_elem_of_fmap_2 fst _ (z, rz)). }
  apply list_elem_of_fmap in Hzq as ([z' rz'] & -> & Hz').
  apply Hpq.
  apply (buckets_disjoint df p q bp vp bq vq (z', rz) (z', rz') Hp Hq);
    [| |done].
  - destruct vp; [done|]. by right.
  - destruct vq; [done|]. by right.
Qed.

Lemma read_obs_mixed_buckets_witness :
  read_obs (frame [record_a; record_b; mkFileRecord "c.fit" 1 1 20 30 200 900 0])
  = (frame [record_a; record_b; mkFileRecord "c.fit" 1 1 20 30 200 900 0],
     Raise AttributeError).
Proof.
  apply (read_obs_mixed_buckets _ 0%nat 1%nat 2%nat record_a record_b
           (mkFileRecord "c.fit" 1 1 20 30 200 900 0));
    try reflexivity; [lia | by repeat split | intros (H & _); by vm_compute in H].
Defined.

(** X17. When no adjacent pair is marked contiguous, [read_obs] does not
    return an empty summary: no [Grupo] column is created and line 69
    raises [KeyError] (or line 62 [AttributeError] when buckets are
    mixed); the table is left as it was. *)
Theorem read_obs_nothing_contiguous (df : DataFrame) :
  Grupo df = None ->
  rows df <> [] ->
  (forall b val i, (b, val) ∈ Grouper.buckets df ->
                   (i, true) ∉ Grouper.contiguous val) ->
  read_obs df = (df, Raise KeyError) \/ read_obs df = (df, Raise AttributeError).
Proof.
  intros Hfresh _ Hnone. unfold read_obs. set (dfg := _ <$> Grouper.buckets df).
  destruct (Grouper.all_indexes_same dfg) eqn:Hall; [left|by right].
  assert (Hones : Grouper.contiguous_ones (Grouper.column_sums dfg) = []).
  { destruct (Grouper.contiguous_ones _) as [|g gs] eqn:Hg; [done|exfalso].
    assert (Hin : g ∈ Grouper.contiguous_ones (Grouper.column_sums dfg))
      by (rewrite Hg; by left).
    assert (Hhd : exists i v, (i, v) ∈ g).
    { unfold Grouper.contiguous_ones in Hin.
      apply list_elem_of_In, filter_In in Hin as [_ Hhd].
      destruct g as [|[i v] g]; [done|]. exists i, v. by left. }
    destruct Hhd as (i & v & Hiv).
    apply (contiguous_ones_elem _ _ _ _ Hin) in Hiv.
    destruct (column_sums_nonzero dfg i 1 Hall Hiv) as (w & Hw & Hiw); [done|].
    apply list_elem_of_fmap in Hw as ([b val] & -> & Hb).
    by apply (Hnone b val i). }
  rewrite Hones. unfold Grouper.assign_groups. simpl.
  unfold Grouper.summary, Grouper.grouped. by rewrite Hfresh.
Qed.

Lemma read_obs_nothing_contiguous_witness :
  read_obs (frame [record_a]) = (frame [record_a], Raise KeyError) \/
  read_obs (frame [record_a]) = (frame [record_a], Raise AttributeError).
Proof.
  apply (read_obs_nothing_contiguous (frame [record_a])).
  - reflexivity.
  - discriminate.
  - intros b val i Hb Hin. vm_compute in Hb.
    apply list_elem_of_singleton in Hb. injection Hb as -> ->.
    vm_compute in Hin. by apply elem_of_nil in Hin.
Defined.

Lemma omap_agg_sorted (gs : list (Z * list FileRecord)) :
  StronglySorted (fun x y => Z.compare x.1 y.1 = Lt) gs ->
  StronglySorted Z.lt (Summary.Grupo <$> omap Grouper.agg gs).
Proof.
  induction 1 as [|[k g] gs _ IH Hall]; [constructor|].
  simpl. unfold Grouper.agg at 1. simpl. destruct g as [|first g]; [exact IH|].
  simpl. constructor; [exact IH|].
  apply Forall_fmap, Forall_forall. intros s (kg & Hkg & Hs)%list_elem_of_omap.
  rewrite Forall_forall in Hall. specialize (Hall _ Hkg). simpl in Hall.
  unfold Grouper.agg in Hs. destruct kg.2; [discriminate|].
  injection Hs as <-. simpl. by apply Z.compare_lt_iff.
Qed.

(** X18. The summary that [read_obs] returns has one row per group
    number, in strictly ascending order of [Grupo]. *)
Theorem read_obs_summary_sorted (df df' : DataFrame) (df_sum : list Summary.row) :
  read_obs df = (df', Ok df_sum) ->
  StronglySorted Z.lt (Summary.Grupo <$> df_sum).
Proof.
  unfold read_obs. destruct (Grouper.all_indexes_same _); [|discriminate].
  intros [= _ Hsum]. unfold Grouper.summary, Grouper.grouped in Hsum.
  destruct (Grupo _); [|discriminate]. injection Hsum as <-.
  apply omap_agg_sorted, (groupby_sorted _ Z_compare_order).
Qed.

Lemma read_obs_summary_sorted_witness :
  StronglySorted Z.lt (Summary.Grupo <$>
    [Summary.mkRow 0 900000000000 1800000000000 (22 # 100) 45 870 200]).
Proof.
  apply (read_obs_summary_sorted inventory_sample
           (mkDataFrame (rows inventory_sample) (Some [None; Some 0; Some 0]))).
  reflexivity.
Defined.

(** ** The grouper: the writes to [Grupo] *)

Lemma foldl_insert_length {A} (idx : list nat) (col : list A) (x : A) :
  length (foldl (fun c j => <[j := x]> c) col idx) = length col.
Proof.
  revert col. induction idx as [|j idx IH]; intros col; simpl; [done|].
  by rewrite IH, length_insert.
Qed.

Lemma foldl_insert_notin {A} (idx : list nat) (col : list A) (x : A) (i : nat) :
  i ∉ idx -> foldl (fun c j => <[j := x]> c) col idx !! i = col !! i.
Proof.
  intros Hi. by destruct (foldl_insert_lookup idx col x i).
Qed.

Lemma foldl_insert_in {A} (idx : list nat) (col : list A) (x : A) (i : nat) :
  i ∈ idx -> (i < length col)%nat ->
  foldl (fun c j => <[j := x]> c) col idx !! i = Some x.
Proof.
  revert col. induction idx as [|j idx IH]; intros col Hi Hlen; simpl.
  - by apply elem_of_nil in Hi.
  - destruct (decide (i ∈ idx)) as [Hin|Hnotin].
    + apply IH; [done|]. by rewrite length_insert.
    + apply elem_of_cons in Hi as [->|?]; [|done].
      rewrite foldl_insert_notin by done. by apply list_lookup_insert_eq.
Qed.

Lemma written_length (W : list (nat * Series Z)) (col : list (option Z)) :
  length (written W col) = length col.
Proof.
  unfold written. revert col. induction W as [|ig W IH]; intros col; simpl; [done|].
  by rewrite IH, foldl_insert_length.
Qed.

(** A cell is either set by the writes, to a number that does not depend
    on what it held, or left alone. *)
Lemma written_lookup (W : list (nat * Series Z)) (j : nat) :
  (exists g, (exists ig, ig ∈ W /\ j ∈ Grouper.index ig.2) /\
             forall col, (j < length col)%nat -> written W col !! j = Some (Some g)) \/
  ((forall ig, ig ∈ W -> j ∉ Grouper.index ig.2) /\
   forall col, written W col !! j = col !! j).
Proof.
  induction W as [|ig W IH].
  - right. split; [|done]. intros ig H. by apply elem_of_nil in H.
  - destruct IH as [(g & (ig' & Hig' & Hj) & Hset)|[Hnot Hkeep]].
    + left. exists g. split; [exists ig'; split; [by right|done]|].
      intros col Hlen. unfold written. simpl. apply Hset.
      by rewrite foldl_insert_length.
    + destruct (decide (j ∈ Grouper.index ig.2)) as [Hin|Hnotin].
      * left. exists (Z.of_nat ig.1). split; [exists ig; split; [by left|done]|].
        intros col Hlen. unfold written. simpl.
        unfold written in Hkeep. rewrite Hkeep. by apply foldl_insert_in.
      * right. split.
        -- intros ig' [->|?]%elem_of_cons; [done|by apply Hnot].
        -- intros col. unfold written. simpl.
           unfold written in Hkeep. rewrite Hkeep. by apply foldl_insert_notin.
Qed.

Lemma written_idempotent (W : list (nat * Series Z)) (col : list (option Z)) :
  written W (written W col) = written W col.
Proof.
  apply list_eq. intros j.
  destruct (written_lookup W j) as [(g & _ & Hset)|[_ Hkeep]]; [|by rewrite Hkeep].
  destruct (decide (j < length col)%nat) as [Hlt|Hge].
  - rewrite !Hset; [done | done | by rewrite written_length].
  - rewrite !lookup_ge_None_2; [done | |]; rewrite ?written_length; lia.
Qed.

Lemma assign_groups_written (df : DataFrame) (ones : list (Series Z)) :
  Grouper.assign_groups df ones
  = match ones with
    | [] => df
    | _ => mkDataFrame (rows df)
             (Some (written (imap pair ones)
                      (default (replicate (length (rows df)) None) (Grupo df))))
    end.
Proof.
  unfold Grouper.assign_groups.
  assert (Hsome : forall W rs col,
    foldl (fun d (ig : nat * Series Z) =>
             Grouper.loc_set_Grupo d (Grouper.index ig.2) (Z.of_nat ig.1))
          (mkDataFrame rs (Some col)) W
    = mkDataFrame rs (Some (written W col))).
  { induction W as [|ig W IH]; intros rs col; [done|]. simpl.
    unfold Grouper.loc_set_Grupo at 2. simpl. by rewrite IH. }
  destruct ones as [|g ones]; [done|]. rewrite imap_cons.
  cbn [foldl]. unfold Grouper.loc_set_Grupo at 2. by rewrite Hsome.
Qed.

Lemma assign_groups_idempotent (df : DataFrame) (ones : list (Series Z)) :
  Grouper.assign_groups (Grouper.assign_groups df ones) ones
  = Grouper.assign_groups df ones.
Proof.
  destruct ones as [|g ones]; [done|].
  rewrite (assign_groups_written df), assign_groups_written.
  cbn [rows Grupo]. do 2 f_equal. apply written_idempotent.
Qed.

(** X19. [read_obs] is idempotent: called again on the table it has
    updated, it leaves the table as it is and returns the same result. *)
Theorem read_obs_idempotent (df : DataFrame) :
  read_obs (read_obs df).1 = read_obs df.
Proof.
  destruct (read_obs_effect df) as [Hrows _].
  assert (Hb : Grouper.buckets (read_obs df).1 = Grouper.buckets df)
    by (unfold Grouper.buckets; by rewrite Hrows).
  unfold read_obs at 1. rewrite Hb. unfold read_obs.
  destruct (Grouper.all_indexes_same _); [|done]. cbn [fst].
  by rewrite assign_groups_idempotent.
Qed.

Lemma cumsum_from_length (acc : Z) (s : list bool) :
  length (cumsum_from acc s) = length s.
Proof. revert acc. induction s as [|b s IH]; intros acc; simpl; [done|]. by rewrite IH. Qed.

Lemma shift_from_length {A} (prev : option A) (s : Series A) :
  length (shift_from prev s) = length s.
Proof.
  revert prev. induction s as [|[i x] s IH]; intros prev; simpl; [done|]. by rewrite IH.
Qed.

(** Every entry of the series is in some run. *)
Lemma runs_cover (series : Series Z) (x : nat * Z) :
  x ∈ series -> exists g, g ∈ Grouper.runs series /\ x ∈ g.
Proof.
  intros Hx. unfold Grouper.runs.
  set (zs := zip _ series).
  assert (Hzs : zs.*2 = series).
  { apply snd_zip. unfold cumsum.
    rewrite cumsum_from_length, length_zip_with, !length_fmap.
    unfold shift. rewrite shift_from_length. lia. }
  assert (Hin : x ∈ concat (groupby Z.compare zs).*2)
    by (by rewrite groupby_perm, Hzs).
  apply list_elem_of_In, in_concat in Hin as (g & Hg & Hxg).
  exists g. split; by apply list_elem_of_In.
Qed.

(** An entry of value 1 is in a selected run. *)
Lemma contiguous_ones_cover (series : Series Z) (i : nat) :
  (i, 1) ∈ series ->
  exists g, g ∈ Grouper.contiguous_ones series /\ (i, 1) ∈ g.
Proof.
  intros Hi. destruct (runs_cover series _ Hi) as (g & Hg & Hig).
  exists g. split; [|done]. unfold Grouper.contiguous_ones.
  apply list_elem_of_In, filter_In. split; [by apply list_elem_of_In|].
  destruct (runs_elem series g _ Hg Hig) as [_ Hval].
  destruct g as [|[i1 v1] g]; [by apply elem_of_nil in Hig|].
  specialize (Hval (i1, v1)). simpl in Hval. rewrite Hval by (by left). done.
Qed.

Lemma singleton_by_lookup {A} (l : list A) (p : nat) (y : A) :
  l !! p = Some y -> (forall q x, l !! q = Some x -> q = p) -> l = [y].
Proof.
  intros Hp Hall. destruct l as [|a [|b l]]; [done| |].
  - destruct p; [by injection Hp as ->|done].
  - pose proof (Hall 0%nat a eq_refl). pose proof (Hall 1%nat b eq_refl). lia.
Qed.

(** When the per-bucket results form a DataFrame and some pair is marked,
    the table is a single bucket. *)
Lemma marked_single_bucket (df : DataFrame) b val i :
  Grouper.all_indexes_same
    ((fun g : Grouper.bucket * Series FileRecord => Grouper.contiguous g.2)
       <$> Grouper.buckets df) = true ->
  (b, val) ∈ Grouper.buckets df ->
  (i, true) ∈ Grouper.contiguous val ->
  Grouper.buckets df = [(b, val)].
Proof.
  intros Hall Hb Hmark.
  apply list_elem_of_lookup in Hb as [p Hp].
  apply (singleton_by_lookup _ p); [done|]. intros q [bq vq] Hq.
  destruct (contiguous_label_in_tail _ _ _ Hmark) as [r Hr].
  assert (Hidx : Grouper.index (Grouper.contiguous vq)
                 = Grouper.index (Grouper.contiguous val)).
  { apply (all_indexes_same_eq _ _ _ Hall).
    - apply (list_elem_of_fmap_2' _ _ (bq, vq)); [by eapply list_elem_of_lookup_2|done].
    - apply (list_elem_of_fmap_2' _ _ (b, val)); [by eapply list_elem_of_lookup_2|done]. }
  rewrite !contiguous_index in Hidx.
  assert (Hiq : i ∈ Grouper.index (tail vq)).
  { rewrite Hidx. by apply (list_elem_of_fmap_2 fst _ (i, r)). }
  apply list_elem_of_fmap in Hiq as ([i' r'] & -> & Hr').
  apply (buckets_disjoint df q p bq vq b val (i', r') (i', r) Hq Hp); [| |done].
  - destruct vq; [done|]. by right.
  - destruct val; [done|]. by right.
Qed.

(** In a fresh table that [read_obs] manages to group, the later record
    of every marked pair ends up with a group number. *)
Lemma read_obs_marked_grouped (df df' : DataFrame) (df_sum : list Summary.row)
    b val i :
  Grupo df = None ->
  read_obs df = (df', Ok df_sum) ->
  (b, val) ∈ Grouper.buckets df ->
  (i, true) ∈ Grouper.contiguous val ->
  exists g, Grupo_at df' i = Some g.
Proof.
  intros Hfresh Hread Hb Hmark. unfold read_obs in Hread.
  destruct (Grouper.all_indexes_same _) eqn:Hall; [|discriminate].
  injection Hread as <- _.
  pose proof (marked_single_bucket df b val i Hall Hb Hmark) as Hone.
  rewrite Hone. rewrite fmap_cons, fmap_nil. cbn [snd].
  set (w := Grouper.contiguous val) in *.
  (* the column of [i] sums to 1 *)
  assert (Hi1 : (i, 1) ∈ Grouper.column_sums [w]).
  { apply list_elem_of_lookup in Hmark as [j Hj]. unfold Grouper.column_sums.
    apply elem_of_lookup_imap. exists j, (i, true). split; [|done].
    simpl. by rewrite Hj. }
  destruct (contiguous_ones_cover _ _ Hi1) as (g & Hg & Hig).
  rewrite assign_groups_written.
  destruct (Grouper.contiguous_ones (Grouper.column_sums [w])) as [|g0 ones] eqn:Hones;
    [by apply elem_of_nil in Hg|].
  unfold Grupo_at. cbn [Grupo]. rewrite Hfresh. cbn [default from_option id].
  destruct (contiguous_label_in_tail _ _ _ Hmark) as [r Hr].
  assert (Hlt : (i < length (rows df))%nat).
  { destruct (buckets_member df b val i r Hb) as [Hrow _].
    - destruct val; [done|]. by right.
    - by eapply lookup_lt_Some. }
  destruct (written_lookup (imap pair (g0 :: ones)) i)
    as [(n & _ & Hset)|[Hnot _]].
  - exists n. rewrite Hset; [done|]. by rewrite length_replicate.
  - exfalso. apply list_elem_of_lookup in Hg as [k Hk].
    apply (Hnot (k, g)).
    + apply elem_of_lookup_imap. by exists k, g.
    + by apply (list_elem_of_fmap_2 fst _ (i, 1)).
Qed.

(** X20. In a table without [Grupo] column that [read_obs] manages to
    group, the records with a group number are exactly the later records
    of the pairs marked contiguous. *)
Theorem read_obs_grouped_iff_marked (df df' : DataFrame)
    (df_sum : list Summary.row) (i : nat) :
  Grupo df = None ->
  read_obs df = (df', Ok df_sum) ->
  (exists g, Grupo_at df' i = Some g) <->
  (exists b val, (b, val) ∈ Grouper.buckets df /\ (i, true) ∈ Grouper.contiguous val).
Proof.
  intros Hfresh Hread. split.
  - intros [g Hg]. destruct (read_obs_effect df) as [_ Hcells].
    apply Hcells. rewrite Hread. cbn [fst]. rewrite Hg.
    unfold Grupo_at. by rewrite Hfresh.
  - intros (b & val & Hb & Hmark). by eapply read_obs_marked_grouped.
Qed.

Lemma read_obs_grouped_iff_marked_witness :
  (exists g, Grupo_at (mkDataFrame (rows inventory_sample) (Some [None; Some 0; Some 0]))
               1%nat = Some g) <->
  (exists b val, (b, val) ∈ Grouper.buckets inventory_sample /\
                 (1%nat, true) ∈ Grouper.contiguous val).
Proof.
  apply (read_obs_grouped_iff_marked inventory_sample _
           [Summary.mkRow 0 900000000000 1800000000000 (22 # 100) 45 870 200]);
    reflexivity.
Defined.

(** ** [select_obs] *)

Lemma zip_snd_sublist {A B} (l : list A) (k : list B) : (zip l k).*2 `sublist_of` k.
Proof.
  revert k. induction l as [|x l IH]; intros [|y k]; simpl;
    [done | apply sublist_nil_l | done | by apply sublist_skip].
Qed.

Lemma filter_fst_replicate {A B} `{EqDecision A} (x : A) (l : list (A * B)) :
  (List.filter (fun ab : A * B => bool_decide (ab.1 = x)) l).*1
  = replicate (length (List.filter (fun ab : A * B => bool_decide (ab.1 = x)) l)) x.
Proof.
  induction l as [|[a b] l IH]; [done|]. simpl.
  destruct (bool_decide_reflect (a = x)) as [->|_]; [|done]. simpl. by rewrite <- IH.
Qed.

Lemma filter_sublist_bool {A} (P : A -> bool) (l : list A) :
  List.filter P l `sublist_of` l.
Proof.
  induction l as [|x l IH]; [done|]. simpl.
  destruct (P x); [by apply sublist_skip | by apply sublist_cons].
Qed.

(** X21. What [select_obs] returns are the rows of the inventory to which
    [read_obs] gave the requested group number, in inventory order, each
    with that number in [Grupo]; the first record of the inventory is
    never among them. *)
Theorem select_obs_rows (env : Env) (group : Z) (obs : DataFrame) :
  select_obs env group = Ok obs ->
  exists df,
    read_fits env = Ok df /\
    rows obs = members (read_obs df).1 group /\
    rows obs `sublist_of` tail (rows df) /\
    Grupo obs = Some (replicate (length (rows obs)) (Some group)).
Proof.
  unfold select_obs. destruct (read_fits env) as [df|] eqn:Hfits; [|discriminate].
  cbn [mbind result_bind].
  destruct (read_obs df) as [df' [df_sum|]] eqn:Hobs; [|discriminate].
  destruct (Grupo df') as [col|] eqn:Hcol; [|discriminate].
  intros [= <-]. exists df. split; [done|]. cbn [rows Grupo].
  assert (Hrows : rows df' = rows df).
  { destruct (read_obs_effect df) as [H _]. by rewrite Hobs in H. }
  assert (Hfresh : Grupo df = None).
  { by apply read_fits_Ok_rows in Hfits as (rs & _ & ->). }
  set (P := fun gr : option Z * FileRecord => bool_decide (gr.1 = Some group)).
  split; [rewrite Hobs; unfold members; cbn [fst]; by rewrite Hcol|]. split.
  - rewrite Hrows. destruct (rows df) as [|r0 rs] eqn:Hdf.
    { destruct col; simpl; apply sublist_nil_l || done. }
    destruct col as [|c0 col]; [apply sublist_nil_l|].
    assert (c0 = None) as ->.
    { pose proof (first_of_bucket_ungrouped df 0%nat r0 Hfresh) as H0.
      rewrite Hobs in H0. unfold Grupo_at in H0. cbn [fst] in H0.
      rewrite Hcol in H0. simpl in H0. apply H0; [by rewrite Hdf|].
      intros j rj Hj. lia. }
    simpl. etransitivity; [|apply (zip_snd_sublist col rs)].
    apply fmap_sublist, filter_sublist_bool.
  - f_equal. rewrite length_fmap. apply (filter_fst_replicate (Some group)).
Qed.

Lemma select_obs_rows_witness :
  exists obs df,
    select_obs env_sample 0 = Ok obs /\
    read_fits env_sample = Ok df /\
    rows obs `sublist_of` tail (rows df).
Proof.
  destruct (select_obs env_sample 0) as [obs|] eqn:H; [|vm_compute in H; discriminate].
  destruct (select_obs_rows env_sample 0 obs H) as (df & Hdf & _ & Hsub & _).
  by exists obs, df.
Defined.

(** In a fresh table, a summary is returned only if some pair is marked. *)
Lemma read_obs_Ok_marked (df df' : DataFrame) (df_sum : list Summary.row) :
  Grupo df = None ->
  read_obs df = (df', Ok df_sum) ->
  exists b val i, (b, val) ∈ Grouper.buckets df /\ (i, true) ∈ Grouper.contiguous val.
Proof.
  intros Hfresh. unfold read_obs. set (dfg := _ <$> Grouper.buckets df).
  destruct (Grouper.all_indexes_same dfg) eqn:Hall; [|discriminate].
  destruct (Grouper.contiguous_ones (Grouper.column_sums dfg)) as [|g ones] eqn:Hones.
  { unfold Grouper.assign_groups, Grouper.summary, Grouper.grouped. simpl.
    rewrite Hfresh. discriminate. }
  intros _.
  assert (Hin : g ∈ Grouper.contiguous_ones (Grouper.column_sums dfg))
    by (rewrite Hones; by left).
  assert (Hhd : exists i v, (i, v) ∈ g).
  { unfold Grouper.contiguous_ones in Hin.
    apply list_elem_of_In, filter_In in Hin as [_ Hhd].
    destruct g as [|[i v] g]; [done|]. exists i, v. by left. }
  destruct Hhd as (i & v & Hiv).
  apply (contiguous_ones_elem _ _ _ _ Hin) in Hiv.
  destruct (column_sums_nonzero dfg i 1 Hall Hiv) as (w & Hw & Hiw); [done|].
  apply list_elem_of_fmap in Hw as ([b val] & -> & Hb).
  by exists b, val, i.
Qed.

(** X23. [select_obs] returns only when the inventory holds at least one
    pair of records marked contiguous; on any other inventory, a single
    file for instance, it raises whatever group is asked for. *)
Theorem select_obs_needs_contiguous (env : Env) (group : Z) (obs : DataFrame) :
  select_obs env group = Ok obs ->
  exists df b val i,
    read_fits env = Ok df /\
    (b, val) ∈ Grouper.buckets df /\ (i, true) ∈ Grouper.contiguous val.
Proof.
  unfold select_obs. destruct (read_fits env) as [df|] eqn:Hfits; [|discriminate].
  cbn [mbind result_bind].
  destruct (read_obs df) as [df' [df_sum|]] eqn:Hobs; [|discriminate].
  intros _.
  assert (Hfresh : Grupo df = None).
  { by apply read_fits_Ok_rows in Hfits as (rs & _ & ->). }
  destruct (read_obs_Ok_marked df df' df_sum Hfresh Hobs) as (b & val & i & Hb & Hi).
  by exists df, b, val, i.
Qed.

Lemma select_obs_needs_contiguous_witness :
  exists df b val i,
    read_fits env_sample = Ok df /\
    (b, val) ∈ Grouper.buckets df /\ (i, true) ∈ Grouper.contiguous val.
Proof.
  destruct (select_obs env_sample 0) as [obs|] eqn:H; [|vm_compute in H; discriminate].
  exact (select_obs_needs_contiguous env_sample 0 obs H).
Defined.

(** ** [groupby]: the content of a group *)

Lemma filter_all_false {A} (P : A -> bool) (l : list A) :
  (forall x, x ∈ l -> P x = false) -> List.filter P l = [].
Proof.
  induction l as [|x l IH]; intros H; [done|]. simpl.
  rewrite (H x) by (by left). apply IH. intros y Hy. apply H. by right.
Qed.

Section groupby_content.
Context {K A : Type} (cmp : K -> K -> comparison) (Hord : cmp_order cmp).

Lemma group_insert_cases k0 a (gs : list (K * list A)) k' g' :
  StronglySorted (fun x y => cmp x.1 y.1 = Lt) gs ->
  (k', g') ∈ group_insert cmp k0 a gs ->
  ((k', g') ∈ gs /\ cmp k0 k' <> Eq) \/
  (k' = k0 /\ g' = [a] /\ forall kg, kg ∈ gs -> cmp k0 kg.1 <> Eq) \/
  (exists g, (k', g) ∈ gs /\ g' = g ++ [a] /\ cmp k0 k' = Eq).
Proof.
  induction 1 as [|[k1 g1] gs Hs IH Hall]; simpl.
  - intros H%list_elem_of_singleton. injection H as -> ->.
    right; left. repeat split. intros kg Hkg. by apply elem_of_nil in Hkg.
  - rewrite Forall_forall in Hall.
    destruct (cmp k0 k1) eqn:Hc; rewrite !elem_of_cons.
    + intros [H|H].
      * injection H as -> ->. right; right. exists g1. split; [by left|done].
      * left. split; [by right|]. specialize (Hall _ H). simpl in Hall.
        rewrite (cmp_eq_l _ Hord k0 k1 k' Hc). congruence.
    + assert (Hlt : forall kg, kg ∈ (k1, g1) :: gs -> cmp k0 kg.1 = Lt).
      { intros kg [->|Hkg]%elem_of_cons; [done|].
        apply (cmp_lt_trans _ Hord k0 k1); [done|]. by apply (Hall kg). }
      intros [H|H].
      * injection H as -> ->. right; left. repeat split.
        intros kg Hkg. rewrite (Hlt kg Hkg). done.
      * left. split; [done|]. rewrite <- elem_of_cons in H.
        pose proof (Hlt _ H) as Hk. simpl in Hk. congruence.
    + intros [H|H].
      * injection H as -> ->. left. split; [by left|congruence].
      * destruct (IH H) as [[Hin Hne]|[(-> & -> & Hnone)|(g & Hin & -> & He)]].
        -- left. split; [by right|done].
        -- right; left. repeat split.
           intros kg [->|Hkg]%elem_of_cons; [simpl; congruence|by apply Hnone].
        -- right; right. exists g. split; [by right|done].
Qed.

Lemma group_insert_keeps_keys k0 a (gs : list (K * list A)) k g :
  (k, g) ∈ gs -> exists g', (k, g') ∈ group_insert cmp k0 a gs.
Proof.
  induction gs as [|[k1 g1] gs IH]; [intros H; by apply elem_of_nil in H|].
  simpl. intros [H|H]%elem_of_cons.
  - injection H as -> ->. destruct (cmp k0 k1).
    + exists (g1 ++ [a]). by left.
    + exists g1. right. by left.
    + exists g1. by left.
  - destruct (IH H) as [g' Hg']. destruct (cmp k0 k1).
    + exists g. by right.
    + exists g. right. by right.
    + exists g'. by right.
Qed.

Lemma group_insert_has_key k0 a (gs : list (K * list A)) :
  exists k g, (k, g) ∈ group_insert cmp k0 a gs /\ cmp k0 k = Eq.
Proof.
  induction gs as [|[k1 g1] gs IH]; simpl.
  - exists k0, [a]. split; [by left|apply (cmp_refl _ Hord)].
  - destruct (cmp k0 k1) eqn:Hc.
    + exists k1, (g1 ++ [a]). split; [by left|done].
    + exists k0, [a]. split; [by left|apply (cmp_refl _ Hord)].
    + destruct IH as (k & g & Hin & He). exists k, g. split; [by right|done].
Qed.

(** Every key of the input has its group. *)
Lemma groupby_has_key (l : list (K * A)) kx x :
  (kx, x) ∈ l -> exists k g, (k, g) ∈ groupby cmp l /\ cmp kx k = Eq.
Proof.
  unfold groupby. induction l as [|[k0 a] l IH] using rev_ind.
  - intros H. by apply elem_of_nil in H.
  - rewrite foldl_snoc. simpl. intros [H|H]%elem_of_app.
    + destruct (IH H) as (k & g & Hin & He).
      destruct (group_insert_keeps_keys k0 a _ k g Hin) as [g' Hg'].
      by exists k, g'.
    + apply list_elem_of_singleton in H. injection H as -> ->.
      apply group_insert_has_key.
Qed.

(** A group holds, in input order, the entries whose key compares equal
    to its key. *)
Lemma groupby_content (l : list (K * A)) k g :
  (k, g) ∈ groupby cmp l ->
  g = (List.filter (fun ka : K * A => in_group cmp k ka.1) l).*2.
Proof.
  revert k g. induction l as [|[k0 a] l IH] using rev_ind; intros k g.
  - intros H. by apply elem_of_nil in H.
  - unfold groupby. rewrite foldl_snoc. fold (groupby cmp l). simpl.
    intros Hin. rewrite List.filter_app, fmap_app. simpl. unfold in_group at 2. simpl.
    apply group_insert_cases in Hin
      as [[Hg Hne]|[(-> & -> & Hnone)|(g0 & Hg & -> & He)]];
      [| | |apply (groupby_sorted _ Hord)].
    + rewrite (IH _ _ Hg). destruct (cmp k0 k); [done | |]; by rewrite app_nil_r.
    + rewrite (cmp_refl _ Hord). simpl.
      assert (Hnil : List.filter (fun ka : K * A => in_group cmp k0 ka.1) l = []).
      { apply filter_all_false. intros [kx x] Hx. unfold in_group. simpl.
        destruct (cmp kx k0) eqn:Hc; [exfalso|done|done].
        destruct (groupby_has_key l kx x Hx) as (k & g & Hg & He).
        apply (Hnone (k, g) Hg). simpl.
        by rewrite <- (cmp_eq_l _ Hord kx k0 k Hc). }
      by rewrite Hnil.
    + rewrite (IH _ _ Hg), He. done.
Qed.

End groupby_content.

Lemma groupby_nonempty {K A} (cmp : K -> K -> comparison) (l : list (K * A)) k g :
  (k, g) ∈ groupby cmp l -> g <> [].
Proof.
  unfold groupby. revert k g. induction l as [|[k0 a] l IH] using rev_ind; intros k g.
  - intros H. by apply elem_of_nil in H.
  - rewrite foldl_snoc. simpl.
    intros [Hin|[[_ ->]|(g0 & _ & -> & _)]]%group_insert_elem.
    + by eapply IH.
    + done.
    + by destruct g0.
Qed.

(** ** The summary of [read_obs] *)

Lemma members_filter (col : list (option Z)) (rs : list FileRecord) (k : Z) :
  (List.filter (fun ka : Z * FileRecord => in_group Z.compare k ka.1)
     (omap (fun gr : option Z * FileRecord => (fun g => (g, gr.2)) <$> gr.1)
           (zip col rs))).*2
  = (List.filter (fun gr : option Z * FileRecord => bool_decide (gr.1 = Some k))
       (zip col rs)).*2.
Proof.
  induction (zip col rs) as [|[[g|] r] zs IH]; [done| |]; simpl.
  - unfold in_group at 1. simpl.
    destruct (Z.compare_spec g k) as [->|Hlt|Hgt].
    + rewrite bool_decide_eq_true_2 by done. simpl. f_equal. exact IH.
    + rewrite bool_decide_eq_false_2 by (intros [= ->]; lia). exact IH.
    + rewrite bool_decide_eq_false_2 by (intros [= ->]; lia). exact IH.
  - exact IH.
Qed.

(** The groups that line 69 forms are the non-empty sets of rows that
    carry one group number. *)
Lemma grouped_members (df : DataFrame) gs k g :
  Grouper.grouped df = Ok gs -> (k, g) ∈ gs -> g = members df k /\ g <> [].
Proof.
  unfold Grouper.grouped, members. destruct (Grupo df) as [col|]; [|discriminate].
  intros [= <-] Hin. split; [|by eapply groupby_nonempty].
  rewrite (groupby_content _ Z_compare_order _ _ _ Hin). apply members_filter.
Qed.

Lemma grouped_has_group (df : DataFrame) gs k :
  Grouper.grouped df = Ok gs -> members df k <> [] -> exists g, (k, g) ∈ gs.
Proof.
  unfold Grouper.grouped, members. destruct (Grupo df) as [col|]; [|discriminate].
  intros [= <-] Hne.
  destruct (List.filter _ (zip col (rows df))) as [|[c r] sel] eqn:Hsel; [done|].
  assert (Hin : In (c, r) (List.filter
            (fun gr : option Z * FileRecord => bool_decide (gr.1 = Some k))
            (zip col (rows df)))) by (rewrite Hsel; by left).
  apply filter_In in Hin as [Hin Hc]. apply bool_decide_eq_true in Hc. simpl in Hc.
  subst c.
  destruct (groupby_has_key Z.compare Z_compare_order
              (omap (fun gr : option Z * FileRecord => (fun g => (g, gr.2)) <$> gr.1)
                    (zip col (rows df))) k r) as (k' & g & Hg & He).
  { apply list_elem_of_omap. exists (Some k, r). split; [by apply list_elem_of_In|done]. }
  apply Z.compare_eq in He as <-. by exists g.
Qed.

(** X22. Each row of the summary stands for one group number and
    aggregates the rows of the table that carry it, in table order: the
    start, the frequencies and the axis length of the first of them, the
    sum of their [DELTA] rounded to the second, the sum of their [Size] in
    GiB rounded to two decimals.  Every group number carried by a row of
    the table has its summary row. *)
Theorem read_obs_summary_rows (df df' : DataFrame) (df_sum : list Summary.row) :
  read_obs df = (df', Ok df_sum) ->
  (forall row, row ∈ df_sum ->
     exists first rest,
       members df' (Summary.Grupo row) = first :: rest /\
       row = Summary.mkRow (Summary.Grupo row) (DATE_START first)
               (Timedelta_round_s (Timedelta_s (Qsum (DELTA <$> first :: rest))))
               (round2 (Qsum (Size <$> first :: rest) / 1024))
               (MINFREQ first) (MAXFREQ first) (NAXIS1 first)) /\
  (forall g, members df' g <> [] ->
     exists row, row ∈ df_sum /\ Summary.Grupo row = g).
Proof.
  unfold read_obs. destruct (Grouper.all_indexes_same _); [|discriminate].
  intros [= <- Hsum]. unfold Grouper.summary in Hsum.
  destruct (Grouper.grouped _) as [gs|] eqn:Hgs; [|discriminate].
  injection Hsum as <-. split.
  - intros row ([k g] & Hkg & Hagg)%list_elem_of_omap.
    destruct (grouped_members _ _ _ _ Hgs Hkg) as [Hg _].
    unfold Grouper.agg in Hagg. simpl in Hagg.
    destruct g as [|first rest]; [discriminate|]. injection Hagg as <-.
    exists first, rest. simpl. by rewrite <- Hg.
  - intros g Hne. destruct (grouped_has_group _ _ _ Hgs Hne) as [grp Hgrp].
    destruct (grouped_members _ _ _ _ Hgs Hgrp) as [_ Hnonempty].
    destruct grp as [|first rest]; [done|].
    eexists. split; [|shelve].
    apply list_elem_of_omap. exists (g, first :: rest). split; [done|]. reflexivity.
    Unshelve. reflexivity.
Qed.

Lemma read_obs_summary_rows_witness :
  exists row, row ∈ [Summary.mkRow 0 900000000000 1800000000000 (22 # 100) 45 870 200]
              /\ Summary.Grupo row = 0.
Proof.
  apply (read_obs_summary_rows inventory_sample
           (mkDataFrame (rows inventory_sample) (Some [None; Some 0; Some 0]))
           [Summary.mkRow 0 900000000000 1800000000000 (22 # 100) 45 870 200]).
  - reflexivity.
  - discriminate.
Defined.
